(** * dubber: speaker alignment, duration matching and timeline assembly

    A shallow embedding of the timing-critical core of the dubbing pipeline
    ([dubber/models.py], [dubber/transcription.py], [dubber/tts/xtts_engine.py],
    [dubber/audio/mix.py], [dubber/pipeline.py]) and the properties proved
    about it.

    Modelling conventions.
    - Python floats holding timestamps and durations are rationals ([Q]);
      arithmetic and comparisons are the exact ones and equality of times
      is [==].  The code computes in binary floating point, where a
      quotient or product that lands on a threshold (the 0.9 and 1.1 of
      the no-op band, the 10 ms of the gap test, a whole millisecond) can fall on either side of it;
      the statements about such thresholds keep clear of the threshold
      itself or leave a margin.
    - The file system is a finite map from path strings to audio files.
    - Exceptions are values of [result]; a [try/except] is a [match].
    - The external engines (ffprobe, ffmpeg filters, the TTS model) are
      fields of a record of functions, and the transcription and
      diarization calls are given by their outcomes, so every statement
      holds whatever the engines answer. *)

From Stdlib Require Import QArith Qminmax Qabs Qround Lqa ZArith Lia String Ascii List.
From Stdlib Require Import DecimalString DecimalNat Sorted.
From stdpp Require Import gmap strings fin_maps.
Import ListNotations.

Local Open Scope Q_scope.

(** ** Python values *)

Module Py.

(** [x < y] on floats, as a boolean. *)
Definition Qltb (x y : Q) : bool := negb (Qle_bool y x).

(** Exceptions that the modelled code raises or lets through. *)
Inductive exn : Type :=
| ValueError (msg : string)
| RuntimeError (msg : string)
| ZeroDivisionError
| FileNotFoundError (path : string)
| CalledProcessError (cmd : string)
| AttributeError (msg : string)
| EngineError (msg : string).

Inductive result (A : Type) : Type :=
| Ok (a : A)
| Raise (e : exn).
Arguments Ok {A} a.
Arguments Raise {A} e.

(** Truthiness of an [Optional[str]]: [None] and the empty string are falsy. *)
Definition truthy (s : option string) : bool :=
  match s with
  | Some EmptyString => false
  | Some _ => true
  | None => false
  end.

(** [str(i)] for a non-negative integer. *)
Definition str_nat (n : nat) : string := NilEmpty.string_of_uint (Nat.to_uint n).

(** A [dict] with float values: an association list in insertion order,
    which is the order Python iterates it in. *)
Definition dict : Type := list (string * Q).

Fixpoint dict_get (d : dict) (k : string) (default : Q) : Q :=
  match d with
  | [] => default
  | (k', v) :: d' => if String.eqb k' k then v else dict_get d' k default
  end.

(** [d[k] = v]: an existing key keeps its position, a new key goes last. *)
Fixpoint dict_set (d : dict) (k : string) (v : Q) : dict :=
  match d with
  | [] => [(k, v)]
  | (k', v') :: d' =>
      if String.eqb k' k then (k', v) :: d' else (k', v') :: dict_set d' k v
  end.

Definition keys (d : dict) : list string := map fst d.

(** [max(iterable, key=f)] keeps the first item whose key is maximal: the
    running best is replaced only by an item with a strictly greater key. *)
Fixpoint max_from (key : string -> Q) (best : string) (rest : list string) : string :=
  match rest with
  | [] => best
  | k :: rest' =>
      if Qltb (key best) (key k) then max_from key k rest' else max_from key best rest'
  end.

Definition max_by (key : string -> Q) (items : list string) : option string :=
  match items with
  | [] => None
  | k :: rest => Some (max_from key k rest)
  end.

End Py.

(** ** dubber/models.py *)

Module Models.

Record StemPaths : Type := mkStemPaths {
  original : string;
  vocals : string;
  instrumental : string
}.

Record Segment : Type := mkSegment {
  id : Z;
  start : Q;
  end_ : Q;
  source_text : string;
  translated_text : option string;
  speaker_id : option string;
  audio_path : option string
}.

(** The [check_timestamps] validator, run when a segment is built. *)
Definition check_timestamps (s : Segment) : Py.result Segment :=
  if Qle_bool (end_ s) (start s)
  then Py.Raise (Py.ValueError "Segment end must be greater than start")
  else Py.Ok s.

(** Attribute assignments [seg.speaker_id = v] and [seg.audio_path = p]. *)
Definition set_speaker_id (s : Segment) (v : option string) : Segment :=
  mkSegment (id s) (start s) (end_ s) (source_text s) (translated_text s) v (audio_path s).

Definition set_audio_path (s : Segment) (p : option string) : Segment :=
  mkSegment (id s) (start s) (end_ s) (source_text s) (translated_text s) (speaker_id s) p.

End Models.

(** ** dubber/transcription.py *)

Module Transcription.
Import Py Models.

Definition SPEAKER_00 : string := "SPEAKER_00".

(** The diarization result is an [Annotation] of the diarization library
    (pyannote).  It is consumed through [crop], [labels] and [itertracks];
    an annotation is the list of its tracks, in the order [itertracks]
    yields them. *)
Record Track : Type := mkTrack {
  track_start : Q;
  track_end : Q;
  label : string
}.

Definition Annotation : Type := list Track.

(** The argument [align_speakers] builds for [crop]:
    [dict(uri=diarization.uri, start=seg.start, end=seg.end)], a plain
    [dict]. *)
Record Support : Type := mkSupport {
  support_start : Q;
  support_end : Q
}.

(** [annotation.crop(support)].  The library method tests
    [isinstance(support, Segment)], then [isinstance(support, Timeline)],
    and has no branch for anything else: with a [dict] neither test holds,
    the method falls off its end and the call evaluates to [None]. *)
Definition crop (diarization : Annotation) (support : Support) : option Annotation := None.

(** [annotation.labels()]: the distinct labels of the tracks. *)
Fixpoint labels (region : Annotation) : list string :=
  match region with
  | [] => []
  | t :: rest =>
      if existsb (String.eqb (label t)) (labels rest) then labels rest
      else label t :: labels rest
  end.

(** The body of the [for segment, _, label in region.itertracks(...)] loop. *)
Definition accumulate (seg : Segment) (speaker_durations : dict) (t : Track) : dict :=
  let overlap_start := Qmax (start seg) (track_start t) in
  let overlap_end := Qmin (end_ seg) (track_end t) in
  let duration := Qmax 0 (overlap_end - overlap_start) in
  dict_set speaker_durations (label t) (dict_get speaker_durations (label t) 0 + duration).

(** What [region.labels()] raises when [region] is [None]. *)
Definition no_labels : exn := AttributeError "'NoneType' object has no attribute 'labels'".

(** One iteration of [for seg in segments] in [align_speakers]. *)
Definition align_segment (diarization : Annotation) (seg : Segment) : result Segment :=
  match crop diarization (mkSupport (start seg) (end_ seg)) with
  | None => Raise no_labels
  | Some region =>
      match labels region with
      | [] => Ok (set_speaker_id seg (Some SPEAKER_00))
      | _ :: _ =>
          let speaker_durations := fold_left (accumulate seg) region [] in
          match max_by (fun k => dict_get speaker_durations k 0) (keys speaker_durations) with
          | Some dominant_speaker => Ok (set_speaker_id seg (Some dominant_speaker))
          | None => Ok (set_speaker_id seg (Some SPEAKER_00))
          end
      end
  end.

(** [TranscriptionManager.align_speakers].  The segments are updated in
    place, so when an iteration raises, the segments before it keep the
    speaker they were given: the list as the call leaves it, and how the
    call ended. *)
Fixpoint align_speakers (segments : list Segment) (diarization : Annotation)
  : list Segment * result unit :=
  match segments with
  | [] => ([], Ok tt)
  | seg :: rest =>
      match align_segment diarization seg with
      | Raise e => (seg :: rest, Raise e)
      | Ok seg' =>
          let '(rest', r) := align_speakers rest diarization in
          (seg' :: rest', r)
      end
  end.

(** [TranscriptionManager.run].  The two engine calls are given by their
    outcomes: [transcribe] is what [self.transcribe] returns or raises,
    [diarize] what [self.diarize] returns or raises (loading the diarization
    pipeline without credentials raises inside that call).  The [try] block
    holds the diarization and the alignment; its [except Exception] gives
    every segment the default speaker. *)
Definition run (transcribe : result (list Segment)) (diarize : result Annotation)
  : result (list Segment) :=
  match transcribe with
  | Raise e => Raise e
  | Ok [] => Ok []
  | Ok segments =>
      match diarize with
      | Ok diarization =>
          match align_speakers segments diarization with
          | (segments', Ok _) => Ok segments'
          | (segments', Raise _) =>
              Ok (map (fun seg => set_speaker_id seg (Some SPEAKER_00)) segments')
          end
      | Raise _ => Ok (map (fun seg => set_speaker_id seg (Some SPEAKER_00)) segments)
      end
  end.

End Transcription.

(** ** pathlib *)

Module Pathlib.

(** Paths are their normalised strings ([str(path)]); [name], [suffix] and
    [with_suffix] follow [PurePath]. *)
Abbreviation Path := string (only parsing).

(** [dir / name] *)
Definition joinpath (dir : Path) (name : string) : Path := dir +:+ "/" +:+ name.

Definition is_sep (c : ascii) : bool := Ascii.eqb c "/".
Definition is_dot (c : ascii) : bool := Ascii.eqb c ".".

(** The final path component, read from the end of the path (so the
    component comes out reversed). *)
Fixpoint name_rev (r : list ascii) : list ascii :=
  match r with
  | [] => []
  | c :: r' => if is_sep c then [] else c :: name_rev r'
  end.

(** Splits a reversed name at its last dot: the characters after the dot
    and the characters before it (both reversed). *)
Fixpoint split_dot (n : list ascii) : option (list ascii * list ascii) :=
  match n with
  | [] => None
  | c :: n' =>
      if is_dot c then Some ([], n')
      else match split_dot n' with
           | Some (ext, stem) => Some (c :: ext, stem)
           | None => None
           end
  end.

(** Length of [path.suffix]: the last dot of the name and what follows it,
    unless that dot is the first or the last character of the name. *)
Definition suffix_length (n : list ascii) : nat :=
  match split_dot n with
  | Some ((_ :: _) as ext, _ :: _) => S (length ext)
  | _ => 0
  end.

(** [path.with_suffix(suffix)]; a path with an empty name raises. *)
Definition with_suffix (p : Path) (suffix : string) : option Path :=
  let r := rev (list_ascii_of_string p) in
  match name_rev r with
  | [] => None
  | (_ :: _) as n =>
      Some (string_of_list_ascii (rev (skipn (suffix_length n) r)) +:+ suffix)
  end.

End Pathlib.

(** ** Audio files and external engines *)

Module Audio.
Import Py.

(** An audio file: how long it plays and its bytes. *)
Record Wav : Type := mkWav {
  duration : Q;
  data : string
}.

(** Outcome of [subprocess.run(..., check=True)] for a command that writes
    one output file: the exit status and what the command left at its
    output path ([None]: it wrote nothing). *)
Inductive proc : Type :=
| Exit0 (output : option Wav)
| ExitFail (output : option Wav).

Record Engines : Type := mkEngines {
  (** ffprobe's duration probe on a path holding (or not) a file; [None]
      when the process fails or its output is not a float. *)
  ffprobe : option Wav -> option Q;
  (** ffmpeg with the filter [atempo=speed] on an input file. *)
  ffmpeg_atempo : Q -> option Wav -> proc;
  (** ffmpeg with the sidechaincompress/amix filter graph: instrumental,
      voice track. *)
  ffmpeg_sidechain : option Wav -> option Wav -> proc;
  (** Loading the XTTS model: the exception raised, if any. *)
  load_model : option exn;
  (** [tts_to_file(text, speaker_wav, language)]: raises or returns, having
      written a file or not. *)
  tts_to_file : string -> Wav -> string -> result (option Wav)
}.

(** Effect of a command on its output path. *)
Definition write_output (p : string) (out : option Wav) (fs : gmap string Wav)
  : gmap string Wav :=
  match out with
  | Some w => <[p := w]> fs
  | None => fs
  end.

(** An external command as it is passed to [subprocess.run]. *)
Inductive Cmd : Type :=
| Atempo (input : string) (speed : Q) (output : string).

End Audio.

(** ** dubber/tts/xtts_engine.py *)

Module XTTS.
Import Py Models Audio Pathlib.

Definition ISO_TO_XTTS : list (string * string) :=
  [("en", "en"); ("es", "es"); ("fr", "fr"); ("de", "de"); ("it", "it");
   ("pt", "pt"); ("pl", "pl"); ("tr", "tr"); ("ru", "ru"); ("nl", "nl");
   ("cs", "cs"); ("ar", "ar"); ("zh", "zh-cn"); ("ja", "ja"); ("ko", "ko");
   ("hi", "hi")]%string.

Fixpoint assoc (l : list (string * string)) (k : string) : option string :=
  match l with
  | [] => None
  | (k', v) :: l' => if String.eqb k' k then Some v else assoc l' k
  end.

Definition get_xtts_code (iso_code : string) : result string :=
  match assoc ISO_TO_XTTS iso_code with
  | Some c => Ok c
  | None => Raise (ValueError "Language not supported by XTTS v2.")
  end.

(** [XTTSEngine.synthesize]; [speaker_profiles] maps speaker ids to
    reference files. *)
Definition synthesize (E : Engines) (speaker_profiles : gmap string string)
    (default_speaker_wav : Path) (fs : gmap string Wav)
    (segment : Segment) (target_lang : string) (output_path : Path)
  : gmap string Wav * result unit :=
  match load_model E with
  | Some e => (fs, Raise e)
  | None =>
      if negb (truthy (translated_text segment)) then (fs, Ok tt)
      else
        let speaker_wav :=
          match speaker_id segment ≫= (fun s => speaker_profiles !! s) with
          | Some p => p
          | None => default_speaker_wav
          end in
        match fs !! speaker_wav with
        | None => (fs, Raise (ValueError "No speaker reference audio found"))
        | Some ref =>
            match get_xtts_code target_lang with
            | Raise e => (fs, Raise e)
            | Ok lang_code =>
                match tts_to_file E (default "" (translated_text segment)) ref lang_code with
                | Raise e => (fs, Raise e)
                | Ok out =>
                    let fs1 := write_output output_path out fs in
                    match fs1 !! output_path with
                    | None => (fs1, Raise (RuntimeError "TTS failed to generate file"))
                    | Some _ => (fs1, Ok tt)
                    end
                end
            end
        end
  end.

(** The speed requested from the tempo filter: [max(0.5, min(2.0, ratio))]. *)
Definition clamp_speed (ratio : Q) : Q := Qmax (1#2) (Qmin 2 ratio).

(** [XTTSEngine.adjust_duration].  Returns the file system, the external
    commands that were run, and how the call ended.  The ratio and the
    tests on it are the exact ones here; the code tests the rounded
    quotient. *)
Definition adjust_duration (E : Engines) (fs : gmap string Wav)
    (audio_path : Path) (target_duration : Q)
  : gmap string Wav * list Cmd * result unit :=
  let current_duration :=
    match ffprobe E (fs !! audio_path) with
    | Some d => d
    | None => 0
    end in
  if Qle_bool current_duration (1#10) then (fs, [], Ok tt)
  else if Qeq_bool target_duration 0 then (fs, [], Raise ZeroDivisionError)
  else
    let ratio := current_duration / target_duration in
    let speed := clamp_speed ratio in
    if Qltb (9#10) speed && Qltb speed (11#10) then (fs, [], Ok tt)
    else
      match with_suffix audio_path ".temp.wav" with
      | None => (fs, [], Raise (ValueError "empty name"))
      | Some temp_path =>
          let cmd := Atempo audio_path speed temp_path in
          match ffmpeg_atempo E speed (fs !! audio_path) with
          | ExitFail out =>
              (write_output temp_path out fs, [cmd], Raise (CalledProcessError "ffmpeg"))
          | Exit0 out =>
              let fs1 := write_output temp_path out fs in
              (* shutil.move(temp_path, audio_path) *)
              match fs1 !! temp_path with
              | None => (fs1, [cmd], Raise (FileNotFoundError temp_path))
              | Some w => (<[audio_path := w]> (delete temp_path fs1), [cmd], Ok tt)
              end
          end
      end.

End XTTS.

(** ** dubber/audio/mix.py *)

Module Mix.
Import Py Models Audio Pathlib.

(** What [ffmpeg -f lavfi -i anullsrc -t duration] writes. *)
Definition silence_wav (duration : Q) : Wav := mkWav duration "".

(** The helper [get_silence(duration, index)]: the file is generated only
    when nothing exists at its path yet. *)
Definition get_silence (work_dir : Path) (fs : gmap string Wav) (duration : Q) (index : string)
  : gmap string Wav * Path :=
  let path := joinpath work_dir ("silence_" +:+ index +:+ ".wav") in
  match fs !! path with
  | Some _ => (fs, path)
  | None => (<[path := silence_wav duration]> fs, path)
  end.

(** The index [f"gap_{i}"] of the silence before the segment numbered [i]. *)
Definition gap_index (i : nat) : string := "gap_" +:+ str_nat i.

(** The loop [for i, seg in enumerate(segments)] from index [i] on, with the
    cursor [current_time]; returns the file system, the cursor and the
    lines written to the concat list (one path per line). *)
Fixpoint write_segments (work_dir : Path) (i : nat) (segments : list Segment)
    (fs : gmap string Wav) (current_time : Q)
  : gmap string Wav * Q * list Path :=
  match segments with
  | [] => (fs, current_time, [])
  | seg :: rest =>
      match audio_path seg ≫= (fun p => match fs !! p with Some _ => Some p | None => None end) with
      | None => write_segments work_dir (S i) rest fs current_time
      | Some p =>
          let gap := start seg - current_time in
          let '(fs1, silence) :=
            if Qltb (1#100) gap
            then let '(fs1, silence_path) := get_silence work_dir fs gap (gap_index i) in
                 (fs1, [silence_path])
            else (fs, []) in
          let '(fs2, t, more) := write_segments work_dir (S i) rest fs1 (end_ seg) in
          (fs2, t, silence ++ p :: more)
      end
  end.

(** The duration probe of the original audio and its fallback. *)
Definition total_duration (E : Engines) (fs : gmap string Wav) (stem_paths : StemPaths)
    (segments : list Segment) : Q :=
  match ffprobe E (fs !! original stem_paths) with
  | Some d => d
  | None =>
      match last segments with
      | Some seg => end_ seg
      | None => 0
      end
  end.

(** The block [with open(concat_list_path, "w") as f: ...]. *)
Definition write_concat_list (work_dir : Path) (fs : gmap string Wav) (total : Q)
    (segments : list Segment) : gmap string Wav * list Path :=
  let '(fs1, current_time, lines) := write_segments work_dir 0 segments fs 0 in
  let remaining := total - current_time in
  if Qltb (1#100) remaining
  then let '(fs2, silence_path) := get_silence work_dir fs1 remaining "end" in
       (fs2, lines ++ [silence_path])
  else (fs1, lines).

(** [ffmpeg -f concat -c copy]: the listed files one after the other; the
    command fails when a listed file is missing.  An empty list (no clip
    at all and a total of at most 10 ms) is given the empty track here;
    ffmpeg itself refuses it. *)
Fixpoint ffmpeg_concat (fs : gmap string Wav) (lines : list Path) : option Wav :=
  match lines with
  | [] => Some (mkWav 0 "")
  | p :: rest =>
      match fs !! p, ffmpeg_concat fs rest with
      | Some w, Some ws => Some (mkWav (duration w + duration ws) (data w +:+ data ws))
      | _, _ => None
      end
  end.

Definition voice_track_path (work_dir : Path) : Path := joinpath work_dir "full_voice_track.wav".

(** Part 1 of [Mixer.create_mixed_audio], "create a single continuous voice
    track from segments": the file system once the concat list is written,
    the lines of [concat_list.txt], and the voice track the concat filter
    makes of them ([None] when that command fails). *)
Definition assemble_voice_track (E : Engines) (work_dir : Path) (fs : gmap string Wav)
    (stem_paths : StemPaths) (segments : list Segment)
  : gmap string Wav * list Path * option Wav :=
  let total := total_duration E fs stem_paths segments in
  let '(fs1, lines) := write_concat_list work_dir fs total segments in
  (fs1, lines, ffmpeg_concat fs1 lines).

(** [Mixer.create_mixed_audio]: the file system it leaves, the lines of
    [concat_list.txt], and how the call ended. *)
Definition create_mixed_audio (E : Engines) (work_dir : Path) (fs : gmap string Wav)
    (stem_paths : StemPaths) (segments : list Segment) (output_path : Path)
  : gmap string Wav * list Path * result unit :=
  let '(fs1, lines, track) := assemble_voice_track E work_dir fs stem_paths segments in
  let voice_track := voice_track_path work_dir in
  match track with
  | None => (fs1, lines, Raise (CalledProcessError "ffmpeg concat"))
  | Some w =>
      let fs2 := <[voice_track := w]> fs1 in
      match ffmpeg_sidechain E (fs2 !! instrumental stem_paths) (fs2 !! voice_track) with
      | ExitFail out =>
          (write_output output_path out fs2, lines, Raise (CalledProcessError "ffmpeg mix"))
      | Exit0 out => (write_output output_path out fs2, lines, Ok tt)
      end
  end.

(** Specification vocabulary. *)

(** Play length of a file, zero for a missing one. *)
Definition file_duration (fs : gmap string Wav) (p : Path) : Q :=
  match fs !! p with
  | Some w => duration w
  | None => 0
  end.

(** Play length of the files of a concat list, one after the other. *)
Fixpoint track_length (fs : gmap string Wav) (lines : list Path) : Q :=
  match lines with
  | [] => 0
  | p :: rest => file_duration fs p + track_length fs rest
  end.

(** The silence files [get_silence] may create. *)
Definition silence_path (work_dir : Path) (index : string) : Path :=
  joinpath work_dir ("silence_" +:+ index +:+ ".wav").

(** The work directory holds no silence file left by an earlier call. *)
Definition fresh_silence (work_dir : Path) (fs : gmap string Wav) : Prop :=
  forall index, fs !! silence_path work_dir index = None.

(** Segment windows in ascending order, none reaching into the next, the
    first not before [from]. *)
Fixpoint ascending (from : Q) (segments : list Segment) : Prop :=
  match segments with
  | [] => True
  | seg :: rest => from <= start seg /\ start seg < end_ seg /\ ascending (end_ seg) rest
  end.

(** Every audio handle that is set names an existing clip that fills the
    segment's window. *)
Definition handles_fit (fs : gmap string Wav) (segments : list Segment) : Prop :=
  Forall (fun seg => forall p, audio_path seg = Some p ->
                     exists w, fs !! p = Some w /\ duration w == end_ seg - start seg) segments.

(** Every segment carries such a handle. *)
Definition clips_fit (fs : gmap string Wav) (segments : list Segment) : Prop :=
  handles_fit fs segments /\ Forall (fun seg => is_Some (audio_path seg)) segments.

(** Every segment starts exactly at, or more than 10 ms after, [from] and
    the end of every earlier segment: no gap falls within the tolerance. *)
Fixpoint well_spaced (from : Q) (segments : list Segment) : Prop :=
  match segments with
  | [] => True
  | seg :: rest =>
      (start seg == from \/ 1#100 < start seg - from) /\ start seg < end_ seg /\
      well_spaced from rest /\ well_spaced (end_ seg) rest
  end.

End Mix.

(** ** dubber/pipeline.py *)

Module Pipeline.
Import Py Models Audio Pathlib.

Fixpoint zeros (n : nat) : string :=
  match n with
  | O => ""
  | S n' => String "0" (zeros n')
  end.

(** The format spec [:04d]. *)
Definition format_04d (z : Z) : string :=
  let digits := str_nat (Z.abs_nat z) in
  if (z <? 0)%Z
  then "-" +:+ zeros (3 - String.length digits) +:+ digits
  else zeros (4 - String.length digits) +:+ digits.

(** [tts_dir / f"seg_{seg.id:04d}_{seg.speaker_id}.wav"] *)
Definition segment_output_path (tts_dir : Path) (seg : Segment) : Path :=
  joinpath tts_dir
    ("seg_" +:+ format_04d (id seg) +:+ "_" +:+ default "None" (speaker_id seg) +:+ ".wav").

(** The [try] block of the synthesis loop for one segment. *)
Definition attempt (E : Engines) (speaker_profiles : gmap string string)
    (default_speaker_wav tts_dir : Path) (target_language : string)
    (fs : gmap string Wav) (seg : Segment) : gmap string Wav * result unit :=
  let output_path := segment_output_path tts_dir seg in
  match XTTS.synthesize E speaker_profiles default_speaker_wav fs seg target_language output_path with
  | (fs1, Raise e) => (fs1, Raise e)
  | (fs1, Ok _) =>
      let target_duration := end_ seg - start seg in
      match XTTS.adjust_duration E fs1 output_path target_duration with
      | (fs2, _, r) => (fs2, r)
      end
  end.

(** The body of the synthesis loop: the [try] block, the assignment
    [seg.audio_path = output_path] that ends it, and [except Exception]. *)
Definition process_segment (E : Engines) (speaker_profiles : gmap string string)
    (default_speaker_wav tts_dir : Path) (target_language : string)
    (fs : gmap string Wav) (seg : Segment) : gmap string Wav * Segment :=
  if negb (truthy (translated_text seg)) then (fs, seg)
  else
    match attempt E speaker_profiles default_speaker_wav tts_dir target_language fs seg with
    | (fs1, Raise _) => (fs1, seg)
    | (fs1, Ok _) => (fs1, set_audio_path seg (Some (segment_output_path tts_dir seg)))
    end.

(** [for seg in segments: ...] of the synthesis stage. *)
Fixpoint synthesize_all (E : Engines) (speaker_profiles : gmap string string)
    (default_speaker_wav tts_dir : Path) (target_language : string)
    (fs : gmap string Wav) (segments : list Segment) : gmap string Wav * list Segment :=
  match segments with
  | [] => (fs, [])
  | seg :: rest =>
      let '(fs1, seg') :=
        process_segment E speaker_profiles default_speaker_wav tts_dir target_language fs seg in
      let '(fs2, rest') :=
        synthesize_all E speaker_profiles default_speaker_wav tts_dir target_language fs1 rest in
      (fs2, seg' :: rest')
  end.






End Pipeline.

(** ** dubber/audio/mix.py: subtitles *)

Module Subtitles.
Import Py Models Pathlib.

(** [x % 1] on a float: the distance to the integer below. *)
Definition mod1 (x : Q) : Q := x - inject_Z (Qfloor x).

(** [int(x)] on a float: truncation towards zero. *)
Definition int (x : Q) : Z := if Qle_bool 0 x then Qfloor x else Qceiling x.

(** The format spec [:0w] on an integer: zero padding to the width [w],
    the sign included. *)
Definition format_int (width : nat) (z : Z) : string :=
  let digits := str_nat (Z.abs_nat z) in
  if (z <? 0)%Z
  then "-" +:+ Pipeline.zeros (width - 1 - String.length digits) +:+ digits
  else Pipeline.zeros (width - String.length digits) +:+ digits.

(** The four numbers [format_timestamp] prints: hours, minutes, seconds
    and milliseconds.  The product [(seconds % 1) * 1000] is the exact
    one here, a rounded one in the code. *)
Definition timestamp_fields (seconds : Q) : Z * Z * Z * Z :=
  let millis := int (mod1 seconds * 1000) in
  let seconds := int seconds in
  let mins := (seconds / 60)%Z in
  let hrs := (mins / 60)%Z in
  let mins := (mins mod 60)%Z in
  let seconds := (seconds mod 60)%Z in
  (hrs, mins, seconds, millis).

(** The local helper [format_timestamp]: [HH:MM:SS,mmm]. *)
Definition format_timestamp (seconds : Q) : string :=
  let '(hrs, mins, seconds, millis) := timestamp_fields seconds in
  format_int 2 hrs +:+ ":" +:+ format_int 2 mins +:+ ":" +:+ format_int 2 seconds
    +:+ "," +:+ format_int 3 millis.

Definition newline : string := String "010"%char "".

(** The three [f.write] calls for the segment numbered [i]. *)
Definition subtitle_block (i : nat) (seg : Segment) : list string :=
  let start_ts := format_timestamp (start seg) in
  let end_ts := format_timestamp (end_ seg) in
  let text := if truthy (translated_text seg) then default "" (translated_text seg) else "" in
  [str_nat (i + 1) +:+ newline;
   start_ts +:+ " --> " +:+ end_ts +:+ newline;
   text +:+ newline +:+ newline].

(** [for i, seg in enumerate(segments)] from index [i] on: the strings
    written, in order. *)
Fixpoint write_blocks (i : nat) (segments : list Segment) : list string :=
  match segments with
  | [] => []
  | seg :: rest => subtitle_block i seg ++ write_blocks (S i) rest
  end.

(** [Mixer.generate_subtitles]: the path of the subtitle file and the
    strings written to it. *)
Definition generate_subtitles (segments : list Segment) (output_path_base : Path)
  : result (Path * list string) :=
  match with_suffix output_path_base ".srt" with
  | None => Raise (ValueError "empty name")
  | Some srt_path => Ok (srt_path, write_blocks 0 segments)
  end.

(** Specification vocabulary: the milliseconds a timestamp stands for. *)
Definition fields_millis (f : Z * Z * Z * Z) : Z :=
  let '(hrs, mins, seconds, millis) := f in
  (((hrs * 60 + mins) * 60 + seconds) * 1000 + millis)%Z.

End Subtitles.

(** ** dubber/utils/languages.py *)

Module Languages.
Import Py.

Definition ISO_TO_NAME : list (string * string) :=
  [("en", "English"); ("es", "Spanish"); ("fr", "French"); ("de", "German");
   ("it", "Italian"); ("pt", "Portuguese"); ("pl", "Polish"); ("tr", "Turkish");
   ("ru", "Russian"); ("nl", "Dutch"); ("cs", "Czech"); ("ar", "Arabic");
   ("zh", "Chinese"); ("ja", "Japanese"); ("ko", "Korean"); ("hi", "Hindi")]%string.

Definition ISO_TO_NLLB : list (string * string) :=
  [("en", "eng_Latn"); ("es", "spa_Latn"); ("fr", "fra_Latn"); ("de", "deu_Latn");
   ("it", "ita_Latn"); ("pt", "por_Latn"); ("pl", "pol_Latn"); ("tr", "tur_Latn");
   ("ru", "rus_Cyrl"); ("nl", "nld_Latn"); ("cs", "ces_Latn"); ("ar", "arb_Arab");
   ("zh", "zho_Hans"); ("ja", "jpn_Jpan"); ("ko", "kor_Hang"); ("hi", "hin_Deva")]%string.

(** [ISO_TO_NLLB.get(iso_code, f"{iso_code}_Latn")] *)
Definition get_nllb_code (iso_code : string) : string :=
  match XTTS.assoc ISO_TO_NLLB iso_code with
  | Some c => c
  | None => iso_code +:+ "_Latn"
  end.

End Languages.

(** ** dubber/transcription.py: transcription *)

Module Whisper.
Import Py Models.

(** A segment as the speech recogniser yields it. *)
Record RawSegment : Type := mkRaw {
  raw_start : Q;
  raw_end : Q;
  raw_text : string
}.

(** The loop of [TranscriptionManager.transcribe] from index [i] on;
    [strip] is [str.strip].  Building a [Segment] runs its validator. *)
Fixpoint collect (strip : string -> string) (i : Z) (raw : list RawSegment)
  : result (list Segment) :=
  match raw with
  | [] => Ok []
  | seg :: rest =>
      if Qle_bool (raw_end seg - raw_start seg) 0 then collect strip (i + 1)%Z rest
      else if negb (truthy (Some (strip (raw_text seg)))) then collect strip (i + 1)%Z rest
      else
        match check_timestamps
                (mkSegment i (raw_start seg) (raw_end seg) (strip (raw_text seg)) None None None) with
        | Raise e => Raise e
        | Ok s =>
            match collect strip (i + 1)%Z rest with
            | Raise e => Raise e
            | Ok segments_list => Ok (s :: segments_list)
            end
        end
  end.

(** [TranscriptionManager.transcribe]; [model] is what the recogniser
    returns or raises. *)
Definition transcribe (strip : string -> string) (model : result (list RawSegment))
  : result (list Segment) :=
  match model with
  | Raise e => Raise e
  | Ok segments_gen => collect strip 0 segments_gen
  end.

End Whisper.

(** ** Further specification vocabulary *)

Module Spec.
Import Py Models Audio Pathlib.

(** The clips a segment list brings along: the audio handles that name an
    existing file, in list order. *)
Fixpoint present_clips (fs : gmap string Wav) (segments : list Segment) : list Path :=
  match segments with
  | [] => []
  | seg :: rest =>
      match audio_path seg ≫= (fun p => match fs !! p with Some _ => Some p | None => None end) with
      | Some p => p :: present_clips fs rest
      | None => present_clips fs rest
      end
  end.

(** Engines that do what their documentation says: the probe reports the
    play length of an existing file, and the tempo filter run at [speed]
    succeeds and divides the play length by [speed]. *)
Definition faithful (E : Engines) : Prop :=
  (forall w, ffprobe E (Some w) = Some (duration w)) /\
  (forall speed w, exists w',
     ffmpeg_atempo E speed (Some w) = Exit0 (Some w') /\ duration w' == duration w / speed).

(** Reading a decimal integer back, as [int(s)] does. *)
Definition parse_int (s : string) : option Z :=
  match s with
  | String "-" digits =>
      option_map (fun d => (- Z.of_nat (Nat.of_uint d))%Z) (NilEmpty.uint_of_string digits)
  | _ => option_map (fun d => Z.of_nat (Nat.of_uint d)) (NilEmpty.uint_of_string s)
  end.

(** What [transcribe] makes of the raw segments [raw], counted from [i]:
    the segment built from the raw segment at position [id s - i]. *)
Definition from_raw (strip : string -> string) (raw : list Whisper.RawSegment)
    (i : Z) (s : Segment) : Prop :=
  (i <= id s < i + Z.of_nat (length raw))%Z /\
  start s < end_ s /\ source_text s <> ""%string /\
  translated_text s = None /\ speaker_id s = None /\ audio_path s = None /\
  exists r, nth_error raw (Z.to_nat (id s - i)) = Some r /\
            start s = Whisper.raw_start r /\ end_ s = Whisper.raw_end r /\
            source_text s = strip (Whisper.raw_text r).

End Spec.

(** ** Sample engines and inputs

    Concrete engines and file systems on which the definitions above are
    evaluated. *)

Module Samples.
Import Py Models Audio.

(** Engines that behave as documented: the probe reads the play length, the
    tempo filter divides it by the speed, the TTS model writes one second
    of audio. *)
Definition ideal : Engines :=
  mkEngines
    (fun f => duration <$> f)
    (fun speed f =>
       match f with
       | Some w => Exit0 (Some (mkWav (duration w / speed) (data w)))
       | None => ExitFail None
       end)
    (fun instrumental voice =>
       match instrumental, voice with
       | Some a, Some _ => Exit0 (Some (mkWav (duration a) "mix"))
       | _, _ => ExitFail None
       end)
    None
    (fun text _ _ => Ok (Some (mkWav 1 text))).

(** The same, with a tempo filter that dies after a partial write. *)
Definition broken_tempo : Engines :=
  mkEngines (ffprobe ideal)
    (fun _ _ => ExitFail (Some (mkWav 0 "partial")))
    (ffmpeg_sidechain ideal) (load_model ideal) (tts_to_file ideal).

(** A work directory holding one clip of the given play length. *)
Definition one_clip (d : Q) : gmap string Wav := {[ "work/tts/seg_0000_A.wav"%string := mkWav d "speech" ]}.

(** A work directory with the original audio (3 s), the instrumental stem
    and the clips of the given play lengths. *)
Definition stems : StemPaths := mkStemPaths "work/orig.wav" "work/vocals.wav" "work/instr.wav".

Definition studio (original_duration : Q) (clips : list (string * Q)) : gmap string Wav :=
  fold_right (fun c fs => <[fst c := mkWav (snd c) "speech"]> fs)
    ({[ "work/orig.wav"%string := mkWav original_duration "orig";
        "work/instr.wav"%string := mkWav original_duration "instr" ]} : gmap string Wav)
    clips.

(** A segment that went through translation and synthesis. *)
Definition dubbed (i : Z) (s e : Q) (clip : string) : Segment :=
  mkSegment i s e "src" (Some "dst"%string) (Some "A"%string) (Some clip).


(** A translated segment waiting for synthesis. *)
Definition translated (i : Z) (s e : Q) (text : string) : Segment :=
  mkSegment i s e text (Some text) (Some "S"%string) None.

(** Three segments separated by gaps of 5 ms. *)
Definition three_lines : list Segment :=
  [translated 0 0 1 "A"; translated 1 (1005#1000) 2 "B"; translated 2 (2005#1000) 3 "C"].


End Samples.

(** * Properties *)

(** ** Python helpers *)

Module PyFacts.
Import Py.

Lemma Qltb_true (x y : Q) : Qltb x y = true <-> x < y.
Proof.
  unfold Qltb. rewrite negb_true_iff. split.
  - intros H. apply Qnot_le_lt. intros Hle. apply Qle_bool_iff in Hle. congruence.
  - intros H. destruct (Qle_bool y x) eqn:E; [|reflexivity].
    apply Qle_bool_iff in E. exfalso. apply (Qlt_not_le _ _ H E).
Qed.

Lemma Qltb_false (x y : Q) : Qltb x y = false <-> y <= x.
Proof.
  unfold Qltb. rewrite negb_false_iff. apply Qle_bool_iff.
Qed.

End PyFacts.

(** ** Speaker alignment *)

Module TranscriptionFacts.
Import Py Models Transcription PyFacts.

(** [crop] is handed a [dict], so the first iteration of the loop raises
    before any segment is touched. *)
Lemma align_segment_raises (diarization : Annotation) (seg : Segment) :
  align_segment diarization seg = Raise no_labels.
Proof. reflexivity. Qed.

Lemma align_speakers_first_raises (seg : Segment) (rest : list Segment)
    (diarization : Annotation) :
  align_speakers (seg :: rest) diarization = (seg :: rest, Raise no_labels).
Proof. reflexivity. Qed.

(** Inside [run] the exception is caught: the segments get the default
    speaker, as when the diarization itself fails. *)
Lemma run_alignment_caught (seg : Segment) (rest : list Segment) (diarization : Annotation) :
  run (Ok (seg :: rest)) (Ok diarization) =
    Ok (map (fun s => set_speaker_id s (Some SPEAKER_00)) (seg :: rest)).
Proof. reflexivity. Qed.

(** C3 (code defect). The alignment loop is written to give each segment
    the label with the greatest accumulated overlap, but it never gets
    there: [crop] is called with a [dict], returns [None], and
    [region.labels()] raises.  In the scenario of the design notes
    (intervals [(0,2,A); (1,3,B)], segment (0,2), overlaps 2 and 1) the
    call raises and leaves the segment without a speaker, and [run], which
    catches the exception, returns the segment with SPEAKER_00 where the
    claim requires A.  The same happens for every non-empty segment list
    and every diarization result. *)
Theorem dominant_speaker_not_assigned :
  let seg := mkSegment 0 0 2 "Hi" None None None in
  let diarization := [mkTrack 0 2 "A"; mkTrack 1 3 "B"] in
  align_speakers [seg] diarization = ([seg], Raise no_labels) /\
  run (Ok [seg]) (Ok diarization) = Ok [set_speaker_id seg (Some SPEAKER_00)] /\
  (forall (s : Segment) (rest : list Segment) (d : Annotation),
     run (Ok (s :: rest)) (Ok d) =
       Ok (map (fun x => set_speaker_id x (Some SPEAKER_00)) (s :: rest))).
Proof.
  split; [apply align_speakers_first_raises|].
  split; [apply run_alignment_caught|].
  intros s rest d. apply run_alignment_caught.
Qed.

(** C8 (code defect). With no diarization interval at all, or with none
    that reaches into the segment, [align_speakers] is written to assign
    SPEAKER_00 ([if not labels]), but the call raises [AttributeError]
    before that test and assigns nothing: the segments are left exactly as
    they were, with no speaker.  This holds for every non-empty segment
    list and every diarization result; below also for a segment (0,2) with
    no interval and with one interval (5,6) outside it. *)
Theorem default_speaker_not_assigned :
  (forall (seg : Segment) (rest : list Segment) (diarization : Annotation),
     align_speakers (seg :: rest) diarization = (seg :: rest, Raise no_labels)) /\
  let seg := mkSegment 0 0 2 "Hi" None None None in
  align_speakers [seg] [] = ([seg], Raise no_labels) /\
  align_speakers [seg] [mkTrack 5 6 "A"] = ([seg], Raise no_labels) /\
  map speaker_id (fst (align_speakers [seg] [mkTrack 5 6 "A"])) = [None].
Proof.
  split; [intros; apply align_speakers_first_raises|].
  repeat split.
Qed.

(** C7. When the diarization call raises (engine error, or the pipeline
    could not be loaded for lack of credentials), [run] still returns
    normally with the whole transcribed list, in order, every segment
    carrying the speaker SPEAKER_00 and otherwise unchanged. *)
Theorem run_diarization_failure (segments : list Segment) (e : exn) :
  exists out,
    run (Ok segments) (Raise e) = Ok out /\
    length out = length segments /\
    Forall (fun seg => speaker_id seg = Some SPEAKER_00) out /\
    forall i seg, nth_error segments i = Some seg ->
                  nth_error out i = Some (set_speaker_id seg (Some SPEAKER_00)).
Proof.
  exists (map (fun seg => set_speaker_id seg (Some SPEAKER_00)) segments).
  split; [destruct segments; reflexivity|].
  split; [apply length_map|].
  split.
  - induction segments; simpl; constructor; [reflexivity | assumption].
  - intros i seg Hi. now rewrite nth_error_map, Hi.
Qed.

End TranscriptionFacts.

(** ** pathlib *)

Module PathlibFacts.
Import Pathlib.

Lemma list_ascii_of_string_app (a b : string) :
  list_ascii_of_string (a +:+ b) = list_ascii_of_string a ++ list_ascii_of_string b.
Proof. induction a as [|c a IH]; simpl; [reflexivity | now rewrite IH]. Qed.

(** A name that ends in [.wav] has a suffix of four characters, or none
    when the name is nothing but [.wav]. *)
Lemma suffix_length_wav (tl : list ascii) :
  let r := ("v" :: "a" :: "w" :: "." :: tl)%char in
  suffix_length (name_rev r) = 4%nat \/ suffix_length (name_rev r) = 0%nat.
Proof.
  simpl. unfold suffix_length. simpl.
  destruct (name_rev tl); [right | left]; reflexivity.
Qed.

(** The temporary file of [adjust_duration] is never the clip itself. *)
Lemma with_suffix_temp_fresh (p q : Path) :
  with_suffix p ".temp.wav" = Some q -> q <> p.
Proof.
  unfold with_suffix.
  set (r := rev (list_ascii_of_string p)).
  destruct (name_rev r) as [|c n] eqn:Hn; [discriminate|].
  intros [= <-] Heq.
  apply (f_equal list_ascii_of_string) in Heq.
  rewrite list_ascii_of_string_app, list_ascii_of_string_of_list_ascii in Heq.
  apply (f_equal (@rev ascii)) in Heq.
  rewrite rev_app_distr, rev_involutive in Heq. fold r in Heq. simpl in Heq.
  assert (Hlen : length r = (9 + (length r - suffix_length (c :: n)))%nat).
  { rewrite <- Heq at 1. simpl. now rewrite length_skipn. }
  rewrite <- Hn in Hlen.
  destruct r as [|c1 [|c2 [|c3 [|c4 tl]]]]; try discriminate.
  injection Heq as <- <- <- <- _.
  pose proof (suffix_length_wav tl) as H. cbv zeta in H.
  destruct H as [H|H]; rewrite H in Hlen; simpl in Hlen; lia.
Qed.

End PathlibFacts.

(** ** Duration matching *)

Module XTTSFacts.
Import Py Models Audio Pathlib XTTS PyFacts PathlibFacts.

Lemma Qdiv_lt_iff (a b c : Q) : 0 < b -> (a / b < c <-> a < c * b).
Proof.
  intros Hb. split; intros H.
  - assert (E : a == a / b * b) by (field; lra). rewrite E.
    apply Qmult_lt_compat_r; assumption.
  - apply Qlt_shift_div_r; assumption.
Qed.

Lemma Qlt_div_iff (a b c : Q) : 0 < b -> (c < a / b <-> c * b < a).
Proof.
  intros Hb. split; intros H.
  - assert (E : a == a / b * b) by (field; lra). rewrite E.
    apply Qmult_lt_compat_r; assumption.
  - apply Qlt_shift_div_l; assumption.
Qed.

Lemma clamp_speed_bounds (ratio : Q) : 1#2 <= clamp_speed ratio /\ clamp_speed ratio <= 2.
Proof.
  unfold clamp_speed. split; [apply Q.le_max_l|].
  apply Q.max_lub; [lra | apply Q.le_min_l].
Qed.

Lemma clamp_speed_cases (ratio : Q) :
  (ratio <= 1#2 /\ clamp_speed ratio == 1#2) \/
  (1#2 <= ratio /\ ratio <= 2 /\ clamp_speed ratio == ratio) \/
  (2 <= ratio /\ clamp_speed ratio == 2).
Proof.
  unfold clamp_speed.
  destruct (Q.min_spec 2 ratio) as [[H1 H2]|[H1 H2]];
    destruct (Q.max_spec (1#2) (Qmin 2 ratio)) as [[H3 H4]|[H3 H4]];
    rewrite H4; rewrite ?H2; rewrite H2 in H3.
  - right. right. split; [lra | reflexivity].
  - lra.
  - right. left. repeat split; try lra.
  - left. split; [lra | reflexivity].
Qed.

(** The clamped speed is strictly between 0.9 and 1.1 exactly when the raw
    ratio is. *)
Lemma clamp_speed_near (ratio : Q) :
  (9#10 < clamp_speed ratio /\ clamp_speed ratio < 11#10) <->
  (9#10 < ratio /\ ratio < 11#10).
Proof.
  destruct (clamp_speed_cases ratio) as [[H1 H2]|[(H1 & H1' & H2)|[H1 H2]]];
    rewrite H2; split; intros [? ?]; split; lra.
Qed.


(** How [with_suffix] treats a few names. *)
Example with_suffix_clip :
  with_suffix "work/tts/seg_0000_A.wav" ".temp.wav" = Some "work/tts/seg_0000_A.temp.wav"%string.
Proof. reflexivity. Qed.

Example with_suffix_dotted_dir :
  with_suffix "work.d/clip" ".temp.wav" = Some "work.d/clip.temp.wav"%string.
Proof. reflexivity. Qed.

Example with_suffix_hidden :
  with_suffix "work/.hidden" ".temp.wav" = Some "work/.hidden.temp.wav"%string.
Proof. reflexivity. Qed.

(** The scenarios of the design notes: a clip of 4 s for a window of 2 s is
    played at twice the speed, a clip of 2 s for a window of 10 s at half
    the speed. *)
Example adjust_scenario_double :
  snd (fst (adjust_duration Samples.ideal (Samples.one_clip 4) "work/tts/seg_0000_A.wav" 2)) =
  [Atempo "work/tts/seg_0000_A.wav" 2 "work/tts/seg_0000_A.temp.wav"].
Proof. vm_compute. reflexivity. Qed.

Example adjust_scenario_half :
  snd (fst (adjust_duration Samples.ideal (Samples.one_clip 2) "work/tts/seg_0000_A.wav" 10)) =
  [Atempo "work/tts/seg_0000_A.wav" (1#2) "work/tts/seg_0000_A.temp.wav"].
Proof. vm_compute. reflexivity. Qed.



(** C6. Whatever the measured duration and the target, every tempo factor
    handed to the tempo filter is the clamped ratio and lies in [0.5, 2.0].
    For a positive target and a measured duration above 0.1 s whose ratio
    lies outside [0.5, 2.0], the filter is run once, on the clip, with the
    nearer bound as its factor: a ratio above 2 is served with the factor 2
    and a ratio below 0.5 with the factor 0.5, and the call ends as the
    filter run ends (the ratio itself is no reason to raise). *)
Theorem adjust_duration_speed_clamped (E : Engines) (fs fs' : gmap string Wav)
    (audio_path : Path) (target : Q) (cmds : list Cmd) (r : result unit) :
  adjust_duration E fs audio_path target = (fs', cmds, r) ->
  let current := match ffprobe E (fs !! audio_path) with Some d => d | None => 0 end in
  let ratio := current / target in
  (forall input speed output, In (Atempo input speed output) cmds ->
     speed = clamp_speed ratio /\ 1#2 <= speed /\ speed <= 2) /\
  (0 < target -> 1#10 < current -> ratio < 1#2 \/ 2 < ratio ->
   forall temp_path, with_suffix audio_path ".temp.wav" = Some temp_path ->
     cmds = [Atempo audio_path (clamp_speed ratio) temp_path] /\
     (2 < ratio -> clamp_speed ratio == 2) /\
     (ratio < 1#2 -> clamp_speed ratio == 1#2) /\
     (forall out, ffmpeg_atempo E (clamp_speed ratio) (fs !! audio_path) = Exit0 (Some out) ->
                  r = Ok tt)).
Proof.
  intros H current ratio. unfold adjust_duration in H. fold current in H. fold ratio in H.
  split.
  - intros input speed output Hin.
    destruct (Qle_bool current (1#10)); [injection H as <- <- <-; destruct Hin|].
    destruct (Qeq_bool target 0); [injection H as <- <- <-; destruct Hin|].
    destruct (Qltb (9#10) (clamp_speed ratio) && Qltb (clamp_speed ratio) (11#10));
      [injection H as <- <- <-; destruct Hin|].
    destruct (with_suffix audio_path ".temp.wav") as [temp|];
      [|injection H as <- <- <-; destruct Hin].
    assert (Hc : cmds = [Atempo audio_path (clamp_speed ratio) temp]).
    { destruct (ffmpeg_atempo E (clamp_speed ratio) (fs !! audio_path)) as [out|out].
      - destruct (write_output temp out fs !! temp); now injection H as <- <- <-.
      - now injection H as <- <- <-. }
    subst cmds. destruct Hin as [[= <- <- <-]|[]].
    split; [reflexivity | apply clamp_speed_bounds].
  - intros Ht Hcur Hfar temp Htemp.
    destruct (Qle_bool current (1#10)) eqn:E1.
    { apply Qle_bool_iff in E1. lra. }
    destruct (Qeq_bool target 0) eqn:E2.
    { apply Qeq_bool_iff in E2. lra. }
    destruct (Qltb (9#10) (clamp_speed ratio) && Qltb (clamp_speed ratio) (11#10)) eqn:E3.
    { apply andb_true_iff in E3 as [H1 H2]. apply Qltb_true in H1, H2.
      destruct (proj1 (clamp_speed_near ratio) (conj H1 H2)). lra. }
    rewrite Htemp in H.
    destruct (clamp_speed_cases ratio) as [[H1 H2]|[(H1 & H1' & H2)|[H1 H2]]].
    all: repeat split; try (intros; lra).
    all: try (destruct (ffmpeg_atempo E (clamp_speed ratio) (fs !! audio_path)) as [out|out];
              [destruct (write_output temp out fs !! temp)|]; now injection H as <- <- <-).
    all: intros out Hout; rewrite Hout in H; simpl in H;
         rewrite lookup_insert_eq in H; now injection H as <- <- <-.
Qed.

Lemma adjust_duration_speed_clamped_witness :
  let current := 5 in
  let ratio := current / 2 in
  (forall input speed output,
     In (Atempo input speed output)
        [Atempo "work/tts/seg_0000_A.wav" 2 "work/tts/seg_0000_A.temp.wav"] ->
     speed = clamp_speed ratio /\ 1#2 <= speed /\ speed <= 2) /\
  (0 < 2 -> 1#10 < current -> ratio < 1#2 \/ 2 < ratio ->
   forall temp_path, with_suffix "work/tts/seg_0000_A.wav" ".temp.wav" = Some temp_path ->
     [Atempo "work/tts/seg_0000_A.wav" 2 "work/tts/seg_0000_A.temp.wav"] =
       [Atempo "work/tts/seg_0000_A.wav" (clamp_speed ratio) temp_path] /\
     (2 < ratio -> clamp_speed ratio == 2) /\
     (ratio < 1#2 -> clamp_speed ratio == 1#2) /\
     (forall out,
        ffmpeg_atempo Samples.ideal (clamp_speed ratio)
          (Samples.one_clip 5 !! "work/tts/seg_0000_A.wav") = Exit0 (Some out) ->
        Ok tt = Ok tt)).
Proof.
  apply (adjust_duration_speed_clamped Samples.ideal (Samples.one_clip 5)
           {[ "work/tts/seg_0000_A.wav"%string := mkWav (5 / 2) "speech" ]}
           "work/tts/seg_0000_A.wav" 2
           [Atempo "work/tts/seg_0000_A.wav" 2 "work/tts/seg_0000_A.temp.wav"] (Ok tt)).
  vm_compute. reflexivity.
Defined.

(** C9. The clip is replaced atomically.  In every execution, the tempo
    filter reads the clip and writes to the temporary path
    [audio_path.with_suffix(".temp.wav")], which is never the clip's own
    path.  When the call raises (the filter run failed, or left no file to
    move), the clip and every file other than the temporary one are as they
    were.  When the measured duration is above 0.1 s and the clamped speed
    lies outside the band from 0.9 to 1.1, the filter is run once, and when
    that run succeeds the call returns, the clip holds what the filter
    wrote to the temporary path, the temporary file is gone and no other
    file changed. *)
Theorem adjust_duration_atomic (E : Engines) (fs fs' : gmap string Wav)
    (audio_path : Path) (target : Q) (cmds : list Cmd) (r : result unit) :
  adjust_duration E fs audio_path target = (fs', cmds, r) ->
  (forall input speed output, In (Atempo input speed output) cmds ->
     input = audio_path /\ output <> audio_path /\
     with_suffix audio_path ".temp.wav" = Some output) /\
  (forall e, r = Raise e ->
     fs' !! audio_path = fs !! audio_path /\
     forall q, with_suffix audio_path ".temp.wav" <> Some q -> fs' !! q = fs !! q) /\
  (forall current temp_path,
     ffprobe E (fs !! audio_path) = Some current -> 1#10 < current -> ~ target == 0 ->
     let speed := clamp_speed (current / target) in
     speed < 9#10 \/ 11#10 < speed ->
     with_suffix audio_path ".temp.wav" = Some temp_path ->
     cmds = [Atempo audio_path speed temp_path] /\
     forall w, ffmpeg_atempo E speed (fs !! audio_path) = Exit0 (Some w) ->
       r = Ok tt /\ fs' !! audio_path = Some w /\ fs' !! temp_path = None /\
       forall q, q <> audio_path -> q <> temp_path -> fs' !! q = fs !! q).
Proof.
  intros H. unfold adjust_duration in H.
  set (current := match ffprobe E (fs !! audio_path) with Some d => d | None => 0 end) in H.
  set (speed := clamp_speed (current / target)) in H.
  assert (Hprobe : forall c, ffprobe E (fs !! audio_path) = Some c -> current = c).
  { intros c Hc. unfold current. now rewrite Hc. }
  destruct (Qle_bool current (1#10)) eqn:E1.
  { injection H as <- <- <-. split; [intros ? ? ? []|]. split; [discriminate|].
    intros c temp Hc Hcur. exfalso. rewrite <- (Hprobe c Hc) in Hcur.
    apply Qle_bool_iff in E1. lra. }
  destruct (Qeq_bool target 0) eqn:E2.
  { injection H as <- <- <-. split; [intros ? ? ? []|].
    split; [intros e _; split; reflexivity|].
    intros c temp _ _ Ht. exfalso. apply Ht. now apply Qeq_bool_iff. }
  destruct (Qltb (9#10) speed && Qltb speed (11#10)) eqn:E3.
  { injection H as <- <- <-. split; [intros ? ? ? []|]. split; [discriminate|].
    intros c temp Hc _ _ sp Hfar. exfalso. unfold sp in Hfar. rewrite <- (Hprobe c Hc) in Hfar.
    fold speed in Hfar. apply andb_true_iff in E3 as [H1 H2]. apply Qltb_true in H1, H2. lra. }
  destruct (with_suffix audio_path ".temp.wav") as [temp|] eqn:Htemp.
  2:{ injection H as <- <- <-. split; [intros ? ? ? []|].
      split; [intros e _; split; reflexivity|].
      intros c temp _ _ _ sp _ Hs. discriminate Hs. }
  pose proof (with_suffix_temp_fresh _ _ Htemp) as Hfresh.
  assert (Hother : forall out q, q <> temp -> write_output temp out fs !! q = fs !! q).
  { intros [w|] q Hq; simpl; [now rewrite lookup_insert_ne|reflexivity]. }
  assert (Hcmd : forall c temp', ffprobe E (fs !! audio_path) = Some c ->
                 Some temp = Some temp' ->
                 [Atempo audio_path speed temp] =
                 [Atempo audio_path (clamp_speed (c / target)) temp']).
  { intros c temp' Hc [= <-]. unfold speed. now rewrite (Hprobe c Hc). }
  destruct (ffmpeg_atempo E speed (fs !! audio_path)) as [out|out] eqn:Hrun.
  - destruct (write_output temp out fs !! temp) as [w|] eqn:Hw; injection H as <- <- <-.
    + split; [intros ? ? ? [[= <- <- <-]|[]]; auto|].
      split; [discriminate|].
      intros c temp' Hc _ _ sp _ Hs. split; [now apply Hcmd|].
      injection Hs as <-. intros w' Hw'. unfold sp in Hw'. rewrite <- (Hprobe c Hc) in Hw'.
      fold speed in Hw'. rewrite Hrun in Hw'. injection Hw' as ->.
      simpl in Hw. rewrite lookup_insert_eq in Hw. injection Hw as <-.
      split; [reflexivity|]. split; [apply lookup_insert_eq|].
      split; [rewrite lookup_insert_ne by congruence; apply lookup_delete_eq|].
      intros q Hq1 Hq2. rewrite lookup_insert_ne, lookup_delete_ne by congruence.
      simpl. now rewrite lookup_insert_ne by congruence.
    + split; [intros ? ? ? [[= <- <- <-]|[]]; auto|].
      split.
      * intros e _. split; [apply Hother; congruence|].
        intros q Hq. apply Hother. congruence.
      * intros c temp' Hc _ _ sp _ Hs. split; [now apply Hcmd|].
        injection Hs as <-. intros w' Hw'. unfold sp in Hw'. rewrite <- (Hprobe c Hc) in Hw'.
        fold speed in Hw'. rewrite Hrun in Hw'. injection Hw' as ->.
        simpl in Hw. rewrite lookup_insert_eq in Hw. discriminate.
  - injection H as <- <- <-.
    split; [intros ? ? ? [[= <- <- <-]|[]]; auto|].
    split.
    + intros e _. split; [apply Hother; congruence|].
      intros q Hq. apply Hother. congruence.
    + intros c temp' Hc _ _ sp _ Hs. split; [now apply Hcmd|].
      intros w' Hw'. unfold sp in Hw'. rewrite <- (Hprobe c Hc) in Hw'.
      fold speed in Hw'. rewrite Hrun in Hw'. discriminate.
Qed.

Lemma adjust_duration_atomic_witness :
  let clip := "work/tts/seg_0000_A.wav"%string in
  let temp := "work/tts/seg_0000_A.temp.wav"%string in
  let fs := Samples.one_clip 5 in
  (let '(fs', cmds, r) := adjust_duration Samples.ideal fs clip 2 in
   cmds = [Atempo clip (clamp_speed (5 / 2)) temp] /\ r = Ok tt /\
   fs' !! clip = Some (mkWav (5 # 2) "speech") /\ fs' !! temp = None /\
   forall q, q <> clip -> q <> temp -> fs' !! q = fs !! q) /\
  (let '(fs', cmds, r) := adjust_duration Samples.broken_tempo fs clip 2 in
   fs' !! clip = fs !! clip /\
   forall q, with_suffix clip ".temp.wav" <> Some q -> fs' !! q = fs !! q).
Proof.
  intros clip temp fs. split.
  - destruct (adjust_duration Samples.ideal fs clip 2) as [[fs' cmds] r] eqn:H.
    destruct (adjust_duration_atomic _ _ _ _ _ _ _ H) as (_ & _ & H3).
    destruct (H3 5 temp) as [Hcmds Hdone].
    + vm_compute. reflexivity.
    + reflexivity.
    + discriminate.
    + right. vm_compute. reflexivity.
    + reflexivity.
    + split; [exact Hcmds|]. apply Hdone. vm_compute. reflexivity.
  - destruct (adjust_duration Samples.broken_tempo fs clip 2) as [[fs' cmds] r] eqn:H.
    destruct (adjust_duration_atomic _ _ _ _ _ _ _ H) as (_ & H2 & _).
    apply (H2 (CalledProcessError "ffmpeg")).
    assert (Hr : snd (adjust_duration Samples.broken_tempo fs clip 2) =
                 Raise (CalledProcessError "ffmpeg")) by (vm_compute; reflexivity).
    rewrite H in Hr. exact Hr.
Defined.

(** A failed filter run, evaluated: the clip is as it was and the partial
    output sits at the temporary path. *)
Example adjust_failure_keeps_clip :
  let '(fs', _, r) :=
    adjust_duration Samples.broken_tempo (Samples.one_clip 5) "work/tts/seg_0000_A.wav" 2 in
  r = Raise (CalledProcessError "ffmpeg") /\
  fs' !! "work/tts/seg_0000_A.wav"%string = Some (mkWav 5 "speech") /\
  fs' !! "work/tts/seg_0000_A.temp.wav"%string = Some (mkWav 0 "partial").
Proof. vm_compute. repeat split. Qed.

End XTTSFacts.

(** ** Timeline assembly *)

Module MixFacts.
Import Py Models Audio Pathlib Mix PyFacts PathlibFacts.

(** *** Names of the silence files *)

Lemma string_app_inv_tail (a b t : string) : a +:+ t = b +:+ t -> a = b.
Proof.
  intros H. apply (f_equal list_ascii_of_string) in H.
  rewrite !list_ascii_of_string_app in H. apply app_inv_tail in H.
  rewrite <- (string_of_list_ascii_of_string a), <- (string_of_list_ascii_of_string b).
  now rewrite H.
Qed.

Lemma str_nat_inj (i j : nat) : str_nat i = str_nat j -> i = j.
Proof.
  unfold str_nat. intros H.
  apply (f_equal NilEmpty.uint_of_string) in H. rewrite !NilEmpty.usu in H.
  injection H as H. apply (f_equal Nat.of_uint) in H.
  now rewrite !DecimalNat.Unsigned.of_to in H.
Qed.

Lemma silence_path_inj (work_dir : Path) (a b : string) :
  silence_path work_dir a = silence_path work_dir b -> a = b.
Proof.
  unfold silence_path, joinpath. intros H.
  apply String.app_inj in H. simpl in H. injection H as H.
  change (a +:+ ".wav" = b +:+ ".wav") in H.
  now apply string_app_inv_tail in H.
Qed.

Lemma gap_path_inj (work_dir : Path) (i j : nat) :
  silence_path work_dir (gap_index i) = silence_path work_dir (gap_index j) -> i = j.
Proof.
  intros H. apply silence_path_inj in H. unfold gap_index in H. simpl in H.
  injection H as H. now apply str_nat_inj.
Qed.

Lemma gap_path_not_end (work_dir : Path) (i : nat) :
  silence_path work_dir "end" <> silence_path work_dir (gap_index i).
Proof. intros H. apply silence_path_inj in H. discriminate. Qed.

(** *** One step of the loop *)

Lemma get_silence_new (work_dir : Path) (fs : gmap string Wav) (d : Q) (index : string) :
  fs !! silence_path work_dir index = None ->
  get_silence work_dir fs d index =
    (<[silence_path work_dir index := silence_wav d]> fs, silence_path work_dir index).
Proof. intros H. unfold get_silence. fold (silence_path work_dir index). now rewrite H. Qed.

Lemma get_silence_spec (work_dir : Path) (fs : gmap string Wav) (d : Q) (index : string) :
  exists fs1,
    get_silence work_dir fs d index = (fs1, silence_path work_dir index) /\
    is_Some (fs1 !! silence_path work_dir index) /\
    (forall q w, fs !! q = Some w -> fs1 !! q = Some w) /\
    (forall q, q <> silence_path work_dir index -> fs1 !! q = fs !! q).
Proof.
  unfold get_silence. fold (silence_path work_dir index).
  destruct (fs !! silence_path work_dir index) as [w0|] eqn:E.
  - exists fs. split; [reflexivity|]. split; [rewrite E; eauto|]. split; auto.
  - exists (<[silence_path work_dir index := silence_wav d]> fs).
    split; [reflexivity|]. split; [rewrite lookup_insert_eq; eauto|]. split.
    + intros q w Hq. rewrite lookup_insert_ne; [assumption | congruence].
    + intros q Hq. now rewrite lookup_insert_ne.
Qed.

(** A segment without a usable clip is passed over. *)
Lemma write_segments_skip (work_dir : Path) (i : nat) (seg : Segment) (rest : list Segment)
    (fs : gmap string Wav) (cur : Q) :
  (forall p, audio_path seg = Some p -> fs !! p = None) ->
  write_segments work_dir i (seg :: rest) fs cur = write_segments work_dir (S i) rest fs cur.
Proof.
  intros H. simpl. destruct (audio_path seg) as [p|]; simpl; [|reflexivity].
  now rewrite (H p eq_refl).
Qed.

(** A segment whose start is at most 10 ms after the cursor (or before it)
    gets no silence: its clip is the next line, and the loop goes on from
    the segment's end. *)
Lemma write_segments_no_gap (work_dir : Path) (i : nat) (seg : Segment) (rest : list Segment)
    (fs : gmap string Wav) (cur : Q) (p : Path) :
  audio_path seg = Some p -> is_Some (fs !! p) -> start seg - cur <= 1#100 ->
  write_segments work_dir i (seg :: rest) fs cur =
    let '(fs2, t, more) := write_segments work_dir (S i) rest fs (end_ seg) in
    (fs2, t, p :: more).
Proof.
  intros Hp [w Hw] Hgap. simpl. rewrite Hp. simpl. rewrite Hw.
  apply Qltb_false in Hgap. rewrite Hgap. reflexivity.
Qed.

(** A segment that starts more than 10 ms after the cursor gets a silence
    file and then its clip. *)
Lemma write_segments_gap (work_dir : Path) (i : nat) (seg : Segment) (rest : list Segment)
    (fs : gmap string Wav) (cur : Q) (p : Path) :
  audio_path seg = Some p -> is_Some (fs !! p) -> 1#100 < start seg - cur ->
  write_segments work_dir i (seg :: rest) fs cur =
    let '(fs1, s) := get_silence work_dir fs (start seg - cur) (gap_index i) in
    let '(fs2, t, more) := write_segments work_dir (S i) rest fs1 (end_ seg) in
    (fs2, t, s :: p :: more).
Proof.
  intros Hp [w Hw] Hgap. simpl. rewrite Hp. simpl. rewrite Hw.
  apply Qltb_true in Hgap. rewrite Hgap.
  destruct (get_silence work_dir fs (start seg - cur) (gap_index i)) as [fs1 s].
  destruct (write_segments work_dir (S i) rest fs1 (end_ seg)) as [[fs2 t] more].
  reflexivity.
Qed.

(** *** What the loop does to the file system *)

(** Files are never overwritten; the only files created are gap silences
    numbered from [i] on; every line written names an existing file. *)
Lemma write_segments_files (work_dir : Path) (segments : list Segment) :
  forall i fs cur fs' cur' lines,
  write_segments work_dir i segments fs cur = (fs', cur', lines) ->
  (forall q w, fs !! q = Some w -> fs' !! q = Some w) /\
  (forall q, (forall j, (i <= j)%nat -> q <> silence_path work_dir (gap_index j)) ->
             fs' !! q = fs !! q) /\
  Forall (fun q => is_Some (fs' !! q)) lines.
Proof.
  induction segments as [|seg rest IH]; intros i fs cur fs' cur' lines H.
  - injection H as <- <- <-. repeat split; auto.
  - destruct (audio_path seg) as [p|] eqn:Hp.
    2:{ rewrite write_segments_skip in H by (intros p0; congruence).
        destruct (IH _ _ _ _ _ _ H) as (H1 & H2 & H3). repeat split; auto.
        intros q Hq. apply H2. intros j Hj. apply Hq. lia. }
    destruct (fs !! p) as [w|] eqn:Hw.
    2:{ rewrite write_segments_skip in H by (intros p0; congruence).
        destruct (IH _ _ _ _ _ _ H) as (H1 & H2 & H3). repeat split; auto.
        intros q Hq. apply H2. intros j Hj. apply Hq. lia. }
    destruct (Qlt_le_dec (1#100) (start seg - cur)) as [Hgap|Hgap].
    + rewrite (write_segments_gap _ _ _ _ _ _ p) in H by eauto.
      destruct (get_silence_spec work_dir fs (start seg - cur) (gap_index i))
        as (fs1 & Hgs & Hs & Hmono & Hother).
      rewrite Hgs in H.
      destruct (write_segments work_dir (S i) rest fs1 (end_ seg)) as [[fs2 t] more] eqn:Hrec.
      injection H as <- <- <-.
      destruct (IH _ _ _ _ _ _ Hrec) as (H1 & H2 & H3). repeat split.
      * auto.
      * intros q Hq. rewrite H2 by (intros j Hj; apply Hq; lia). apply Hother. apply Hq. lia.
      * constructor; [destruct Hs as [ws Hs]; eauto|]. constructor; eauto.
    + rewrite (write_segments_no_gap _ _ _ _ _ _ p) in H by eauto.
      destruct (write_segments work_dir (S i) rest fs (end_ seg)) as [[fs2 t] more] eqn:Hrec.
      injection H as <- <- <-.
      destruct (IH _ _ _ _ _ _ Hrec) as (H1 & H2 & H3). repeat split; auto.
      * intros q Hq. apply H2. intros j Hj. apply Hq. lia.
      * constructor; eauto.
Qed.

Lemma file_duration_Some (fs : gmap string Wav) (p : Path) (w : Wav) :
  fs !! p = Some w -> file_duration fs p = duration w.
Proof. intros H. unfold file_duration. now rewrite H. Qed.

(** Files that exist keep their play length when files are only added. *)
Lemma track_length_mono (fs fs' : gmap string Wav) (lines : list Path) :
  (forall q w, fs !! q = Some w -> fs' !! q = Some w) ->
  Forall (fun q => is_Some (fs !! q)) lines ->
  track_length fs' lines = track_length fs lines.
Proof.
  intros Hmono. induction 1 as [|q lines [w Hw] _ IH]; simpl; [reflexivity|].
  rewrite IH. now rewrite (file_duration_Some _ _ _ Hw), (file_duration_Some _ _ _ (Hmono _ _ Hw)).
Qed.

Lemma track_length_app (fs : gmap string Wav) (a b : list Path) :
  track_length fs (a ++ b) == track_length fs a + track_length fs b.
Proof. induction a as [|q a IH]; simpl; [lra | rewrite IH; lra]. Qed.

(** The concat filter succeeds on existing files and yields their total
    play length. *)
Lemma ffmpeg_concat_length (fs : gmap string Wav) (lines : list Path) :
  Forall (fun q => is_Some (fs !! q)) lines ->
  exists w, ffmpeg_concat fs lines = Some w /\ duration w = track_length fs lines.
Proof.
  induction 1 as [|q lines [w Hw] _ (ws & IH & Hd)]; simpl; [eauto|].
  rewrite Hw, IH. eexists. split; [reflexivity|]. simpl.
  now rewrite Hd, (file_duration_Some _ _ _ Hw).
Qed.

Lemma handles_fit_mono (fs fs' : gmap string Wav) (segments : list Segment) :
  (forall q w, fs !! q = Some w -> fs' !! q = Some w) ->
  handles_fit fs segments -> handles_fit fs' segments.
Proof.
  intros Hmono. unfold handles_fit. induction 1 as [|seg rest H _ IH]; constructor; [|exact IH].
  intros p Hp. destruct (H p Hp) as (w & Hw & Hd). eauto.
Qed.

Lemma ascending_weaken (a b : Q) (segments : list Segment) :
  b <= a -> ascending a segments -> ascending b segments.
Proof.
  destruct segments as [|seg rest]; simpl; [tauto|].
  intros Hle (H1 & H2 & H3). repeat split; [lra | assumption | assumption].
Qed.

Lemma inject_nat_S (n : nat) : inject_Z (Z.of_nat (S n)) == inject_Z (Z.of_nat n) + 1.
Proof. rewrite Nat2Z.inj_succ. unfold Z.succ. rewrite inject_Z_plus. reflexivity. Qed.

(** Gap silences numbered from [S i] on are still missing once the one
    numbered [i] has been created. *)
Lemma fresh_after_gap (work_dir : Path) (fs : gmap string Wav) (i : nat) (w : Wav) :
  (forall j, (i <= j)%nat -> fs !! silence_path work_dir (gap_index j) = None) ->
  forall j, (S i <= j)%nat ->
    <[silence_path work_dir (gap_index i) := w]> fs !! silence_path work_dir (gap_index j) = None.
Proof.
  intros H j Hj. rewrite lookup_insert_ne; [apply H; lia|].
  intros Heq. apply gap_path_inj in Heq. lia.
Qed.

(** *** Length of what the loop assembles *)

(** With windows in ascending order and clips that fill them, the lines
    written from cursor [cur] on play for at most [cur' - cur], and fall
    short of that by at most 10 ms per segment. *)
Lemma write_segments_bound (work_dir : Path) (segments : list Segment) :
  forall i fs cur fs' cur' lines,
  (forall j, (i <= j)%nat -> fs !! silence_path work_dir (gap_index j) = None) ->
  handles_fit fs segments -> ascending cur segments ->
  write_segments work_dir i segments fs cur = (fs', cur', lines) ->
  cur' - cur - (1#100) * inject_Z (Z.of_nat (length segments)) <= track_length fs' lines /\
  track_length fs' lines <= cur' - cur /\
  (cur' = cur \/ exists seg, In seg segments /\ cur' = end_ seg).
Proof.
  induction segments as [|seg rest IH]; intros i fs cur fs' cur' lines Hfresh Hfit Hasc H.
  - injection H as <- <- <-. simpl. change (inject_Z (Z.of_nat 0)) with 0.
    split; [lra|]. split; [lra|]. now left.
  - destruct Hasc as (Hc & Hse & Hasc). inversion Hfit as [|? ? Hseg Hrest]; subst.
    pose proof (inject_nat_S (length rest)) as HS. simpl length.
    destruct (audio_path seg) as [p|] eqn:Hp.
    2:{ rewrite write_segments_skip in H by (intros p0; congruence).
        assert (Hasc' : ascending cur rest) by (eapply ascending_weaken; [|exact Hasc]; lra).
        destruct (IH _ _ _ _ _ _ (fun j Hj => Hfresh j (Nat.le_trans _ _ _ (Nat.le_succ_diag_r i) Hj))
                    Hrest Hasc' H) as (H1 & H2 & H3).
        split; [lra|]. split; [lra|].
        destruct H3 as [->|(s0 & Hin & ->)]; [now left | right; exists s0; split; [now right|reflexivity]]. }
    destruct (Hseg p eq_refl) as (w & Hw & Hd).
    destruct (Qlt_le_dec (1#100) (start seg - cur)) as [Hgap|Hgap].
    + rewrite (write_segments_gap _ _ _ _ _ _ p) in H by eauto.
      rewrite get_silence_new in H by (apply Hfresh; lia).
      set (s := silence_path work_dir (gap_index i)) in *.
      set (fs1 := <[s := silence_wav (start seg - cur)]> fs) in *.
      destruct (write_segments work_dir (S i) rest fs1 (end_ seg)) as [[fs2 t] more] eqn:Hrec.
      injection H as <- <- <-.
      assert (Hmono : forall q w0, fs !! q = Some w0 -> fs1 !! q = Some w0).
      { intros q w0 Hq. unfold fs1. rewrite lookup_insert_ne; [assumption|].
        intros <-. unfold s in Hq. rewrite (Hfresh i (Nat.le_refl i)) in Hq. discriminate. }
      destruct (IH _ _ _ _ _ _ (fresh_after_gap _ _ _ _ Hfresh)
                  (handles_fit_mono _ _ _ Hmono Hrest) Hasc Hrec) as (H1 & H2 & H3).
      destruct (write_segments_files _ _ _ _ _ _ _ _ Hrec) as (Hm2 & _ & _).
      simpl track_length.
      rewrite (file_duration_Some fs2 s (silence_wav (start seg - cur)))
        by (apply Hm2; unfold fs1; apply lookup_insert_eq).
      rewrite (file_duration_Some fs2 p w) by auto.
      simpl duration. rewrite Hd.
      split; [lra|]. split; [lra|].
      destruct H3 as [->|(s0 & Hin & ->)]; right;
        [exists seg; split; [now left|reflexivity] | exists s0; split; [now right|reflexivity]].
    + rewrite (write_segments_no_gap _ _ _ _ _ _ p) in H by eauto.
      destruct (write_segments work_dir (S i) rest fs (end_ seg)) as [[fs2 t] more] eqn:Hrec.
      injection H as <- <- <-.
      destruct (IH _ _ _ _ _ _ (fun j Hj => Hfresh j (Nat.le_trans _ _ _ (Nat.le_succ_diag_r i) Hj))
                  Hrest Hasc Hrec) as (H1 & H2 & H3).
      destruct (write_segments_files _ _ _ _ _ _ _ _ Hrec) as (Hm2 & _ & _).
      simpl track_length.
      rewrite (file_duration_Some fs2 p w) by auto. rewrite Hd.
      split; [lra|]. split; [lra|].
      destruct H3 as [->|(s0 & Hin & ->)]; right;
        [exists seg; split; [now left|reflexivity] | exists s0; split; [now right|reflexivity]].
Qed.

(** With no gap inside the tolerance, the lines written from cursor [cur]
    on play for exactly [cur' - cur], and every clip comes after lines that
    play for exactly the time from [cur] to its segment's start. *)
Lemma write_segments_exact (work_dir : Path) (segments : list Segment) :
  forall i fs cur fs' cur' lines,
  (forall j, (i <= j)%nat -> fs !! silence_path work_dir (gap_index j) = None) ->
  handles_fit fs segments -> well_spaced cur segments ->
  write_segments work_dir i segments fs cur = (fs', cur', lines) ->
  track_length fs' lines == cur' - cur /\
  forall seg p, In seg segments -> audio_path seg = Some p ->
    exists before after,
      lines = before ++ p :: after /\ track_length fs' before == start seg - cur.
Proof.
  induction segments as [|seg rest IH]; intros i fs cur fs' cur' lines Hfresh Hfit Hsp H.
  - injection H as <- <- <-. simpl. split; [lra | intros ? ? []].
  - destruct Hsp as (Hc & Hse & Hsp0 & Hsp1). inversion Hfit as [|? ? Hseg Hrest]; subst.
    destruct (audio_path seg) as [p|] eqn:Hp.
    2:{ rewrite write_segments_skip in H by (intros p0; congruence).
        destruct (IH _ _ _ _ _ _ (fun j Hj => Hfresh j (Nat.le_trans _ _ _ (Nat.le_succ_diag_r i) Hj))
                    Hrest Hsp0 H) as (H1 & H2).
        split; [exact H1|]. intros s0 p0 [<-|Hin] Hp0; [congruence | eauto]. }
    destruct (Hseg p eq_refl) as (w & Hw & Hd).
    destruct (Qlt_le_dec (1#100) (start seg - cur)) as [Hgap|Hgap].
    + rewrite (write_segments_gap _ _ _ _ _ _ p) in H by eauto.
      rewrite get_silence_new in H by (apply Hfresh; lia).
      set (s := silence_path work_dir (gap_index i)) in *.
      set (fs1 := <[s := silence_wav (start seg - cur)]> fs) in *.
      destruct (write_segments work_dir (S i) rest fs1 (end_ seg)) as [[fs2 t] more] eqn:Hrec.
      injection H as <- <- <-.
      assert (Hmono : forall q w0, fs !! q = Some w0 -> fs1 !! q = Some w0).
      { intros q w0 Hq. unfold fs1. rewrite lookup_insert_ne; [assumption|].
        intros <-. unfold s in Hq. rewrite (Hfresh i (Nat.le_refl i)) in Hq. discriminate. }
      destruct (IH _ _ _ _ _ _ (fresh_after_gap _ _ _ _ Hfresh)
                  (handles_fit_mono _ _ _ Hmono Hrest) Hsp1 Hrec) as (H1 & H2).
      destruct (write_segments_files _ _ _ _ _ _ _ _ Hrec) as (Hm2 & _ & _).
      assert (Es : file_duration fs2 s = start seg - cur).
      { rewrite (file_duration_Some fs2 s (silence_wav (start seg - cur))); [reflexivity|].
        apply Hm2. unfold fs1. apply lookup_insert_eq. }
      assert (Ep : file_duration fs2 p == end_ seg - start seg).
      { rewrite (file_duration_Some fs2 p w) by auto. exact Hd. }
      split; [simpl; rewrite Es, Ep, H1; lra|].
      intros s0 p0 [<-|Hin] Hp0.
      * assert (p0 = p) by congruence. subst p0.
        exists [s], more. split; [reflexivity|]. simpl. rewrite Es. lra.
      * destruct (H2 s0 p0 Hin Hp0) as (b & a & -> & Hb).
        exists (s :: p :: b), a. split; [reflexivity|]. simpl. rewrite Es, Ep, Hb. lra.
    + rewrite (write_segments_no_gap _ _ _ _ _ _ p) in H by eauto.
      destruct (write_segments work_dir (S i) rest fs (end_ seg)) as [[fs2 t] more] eqn:Hrec.
      injection H as <- <- <-.
      destruct (IH _ _ _ _ _ _ (fun j Hj => Hfresh j (Nat.le_trans _ _ _ (Nat.le_succ_diag_r i) Hj))
                  Hrest Hsp1 Hrec) as (H1 & H2).
      destruct (write_segments_files _ _ _ _ _ _ _ _ Hrec) as (Hm2 & _ & _).
      assert (Ep : file_duration fs2 p == end_ seg - start seg).
      { rewrite (file_duration_Some fs2 p w) by auto. exact Hd. }
      assert (Hcur : start seg == cur) by (destruct Hc as [Hc|Hc]; [exact Hc | lra]).
      split; [simpl; rewrite Ep, H1; lra|].
      intros s0 p0 [<-|Hin] Hp0.
      * assert (p0 = p) by congruence. subst p0.
        exists [], more. split; [reflexivity|]. simpl. lra.
      * destruct (H2 s0 p0 Hin Hp0) as (b & a & -> & Hb).
        exists (p :: b), a. split; [reflexivity|]. simpl. rewrite Ep, Hb. lra.
Qed.


(** The loop over a list in two parts. *)
Lemma write_segments_app (work_dir : Path) (l1 : list Segment) :
  forall i l2 fs cur,
  write_segments work_dir i (l1 ++ l2) fs cur =
    let '(fs1, c1, a) := write_segments work_dir i l1 fs cur in
    let '(fs2, c2, b) := write_segments work_dir (i + length l1) l2 fs1 c1 in
    (fs2, c2, a ++ b).
Proof.
  induction l1 as [|seg rest IH]; intros i l2 fs cur.
  - simpl. rewrite Nat.add_0_r.
    now destruct (write_segments work_dir i l2 fs cur) as [[fs2 c2] b].
  - change ((seg :: rest) ++ l2) with (seg :: (rest ++ l2)).
    replace (i + length (seg :: rest))%nat with (S i + length rest)%nat by (simpl; lia).
    simpl.
    destruct (audio_path seg ≫= _) as [p|]; [|apply IH].
    destruct (if Qltb (1#100) (start seg - cur) then _ else _) as [fs1 silence].
    rewrite IH.
    destruct (write_segments work_dir (S i) rest fs1 (end_ seg)) as [[fs2 c2] a].
    simpl. destruct (write_segments work_dir _ l2 fs2 c2) as [[fs3 c3] b].
    now rewrite <- app_assoc.
Qed.

(** *** The concat list as a whole *)

(** After the loop, at most one line is added: the trailing silence. *)
Lemma write_concat_list_spec (work_dir : Path) (fs fs1 : gmap string Wav) (total cur : Q)
    (segments : list Segment) (lines0 : list Path) :
  write_segments work_dir 0 segments fs 0 = (fs1, cur, lines0) ->
  exists fs' tail,
    write_concat_list work_dir fs total segments = (fs', lines0 ++ tail) /\
    (forall q w, fs1 !! q = Some w -> fs' !! q = Some w) /\
    Forall (fun q => is_Some (fs' !! q)) (lines0 ++ tail) /\
    ((total - cur <= 1#100 /\ tail = []) \/
     (1#100 < total - cur /\ tail = [silence_path work_dir "end"] /\
      (fs1 !! silence_path work_dir "end" = None ->
       fs' !! silence_path work_dir "end" = Some (silence_wav (total - cur))))).
Proof.
  intros H. unfold write_concat_list. rewrite H.
  destruct (write_segments_files _ _ _ _ _ _ _ _ H) as (_ & _ & Hex).
  destruct (Qlt_le_dec (1#100) (total - cur)) as [Hgap|Hgap].
  - apply Qltb_true in Hgap as Hb. rewrite Hb.
    destruct (get_silence_spec work_dir fs1 (total - cur) "end") as (fs2 & Hgs & Hs & Hmono & Hother).
    rewrite Hgs. exists fs2, [silence_path work_dir "end"].
    split; [reflexivity|]. split; [exact Hmono|]. split.
    + apply Forall_app. split.
      * eapply Forall_impl; [exact Hex|]. intros q [w Hw]. eauto.
      * constructor; [exact Hs | constructor].
    + right. split; [exact Hgap|]. split; [reflexivity|].
      intros Hnone. rewrite (get_silence_new _ _ _ _ Hnone) in Hgs.
      injection Hgs as <-. apply lookup_insert_eq.
  - apply Qltb_false in Hgap as Hb. rewrite Hb.
    exists fs1, []. rewrite app_nil_r. repeat split; auto.
Qed.


(** The sample work directory holds no silence file when its clips live
    in the [tts] directory. *)
Lemma studio_fresh (total : Q) (clips : list (string * Q)) :
  Forall (fun c => exists name, fst c = "work/tts/" +:+ name) clips ->
  fresh_silence "work" (Samples.studio total clips).
Proof.
  intros H index. induction H as [|[path d] clips [name Hn] _ IH]; simpl.
  - rewrite lookup_insert_ne by discriminate. now rewrite lookup_singleton_ne by discriminate.
  - simpl in Hn. subst path. rewrite lookup_insert_ne by discriminate. exact IH.
Qed.

(** The scenario of the design notes: one segment (0, 1) and an original
    of 3 s give the clip followed by 2 s of silence, 3 s in all. *)
Example assemble_scenario :
  let '(_, lines, track) :=
    assemble_voice_track Samples.ideal "work" (Samples.studio 3 [("work/tts/a.wav"%string, 1)])
      Samples.stems [Samples.dubbed 0 0 1 "work/tts/a.wav"] in
  lines = ["work/tts/a.wav"; "work/silence_end.wav"]%string /\
  option_map duration track = Some 3.
Proof. vm_compute. split; reflexivity. Qed.

(** C1 (amended). For every segment list whose windows are in strictly
    ascending order without overlap, start at or after 0 and end at or
    before the declared original duration, in which every segment has a clip
    whose duration equals [end - start], and a work directory without
    silence files of an earlier call, the voice track is assembled and its
    total duration is at most the declared original duration and falls
    short of it by at most 10 ms for each of the gaps before the [n]
    segments and the trailing gap, that is by at most [(n + 1) * 10] ms. *)
Theorem voice_track_duration (E : Engines) (work_dir : Path) (fs : gmap string Wav)
    (stem_paths : StemPaths) (segments : list Segment) (total : Q) :
  ffprobe E (fs !! original stem_paths) = Some total ->
  fresh_silence work_dir fs ->
  ascending 0 segments ->
  clips_fit fs segments ->
  Forall (fun seg => end_ seg <= total) segments ->
  0 <= total ->
  exists fs' lines w,
    assemble_voice_track E work_dir fs stem_paths segments = (fs', lines, Some w) /\
    total - (1#100) * inject_Z (Z.of_nat (S (length segments))) <= duration w /\
    duration w <= total.
Proof.
  intros Hprobe Hfresh Hasc [Hfit _] Hend Hpos.
  unfold assemble_voice_track, total_duration. rewrite Hprobe.
  destruct (write_segments work_dir 0 segments fs 0) as [[fs1 cur] lines0] eqn:H.
  destruct (write_segments_bound _ _ _ _ _ _ _ _ (fun j _ => Hfresh (gap_index j)) Hfit Hasc H)
    as (Hlo & Hhi & Hcur).
  destruct (write_segments_files _ _ _ _ _ _ _ _ H) as (_ & Hother & Hex).
  assert (Hle : cur <= total).
  { destruct Hcur as [->|(seg & Hin & ->)]; [exact Hpos|].
    exact (proj1 (List.Forall_forall _ _) Hend seg Hin). }
  destruct (write_concat_list_spec work_dir fs fs1 total cur segments lines0 H)
    as (fs' & tail & -> & Hmono & Hex' & Htail).
  destruct (ffmpeg_concat_length fs' _ Hex') as (w & -> & Hd).
  exists fs', (lines0 ++ tail), w. split; [reflexivity|].
  rewrite Hd, track_length_app, (track_length_mono fs1 fs' lines0 Hmono Hex).
  rewrite inject_nat_S.
  destruct Htail as [[Hrem ->]|(Hrem & -> & Hend')].
  - simpl. lra.
  - assert (Hnone : fs1 !! silence_path work_dir "end" = None).
    { rewrite Hother; [apply Hfresh|]. intros j _. apply gap_path_not_end. }
    simpl. rewrite (file_duration_Some _ _ _ (Hend' Hnone)). simpl. lra.
Qed.

Lemma voice_track_duration_witness :
  exists fs' lines w,
    assemble_voice_track Samples.ideal "work"
      (Samples.studio 3 [("work/tts/a.wav"%string, 1)]) Samples.stems
      [Samples.dubbed 0 0 1 "work/tts/a.wav"] = (fs', lines, Some w) /\
    3 - (1#100) * inject_Z (Z.of_nat (S (length [Samples.dubbed 0 0 1 "work/tts/a.wav"])))
      <= duration w /\
    duration w <= 3.
Proof.
  apply (voice_track_duration Samples.ideal "work"
           (Samples.studio 3 [("work/tts/a.wav"%string, 1)]) Samples.stems
           [Samples.dubbed 0 0 1 "work/tts/a.wav"] 3).
  - vm_compute. reflexivity.
  - apply studio_fresh. constructor; [exists "a.wav"%string; reflexivity | constructor].
  - simpl. repeat split; vm_compute; congruence.
  - split; constructor; try constructor.
    + intros p [= <-]. exists (mkWav 1 "speech"). split; vm_compute; reflexivity.
    + simpl. eauto.
  - constructor; [vm_compute; discriminate | constructor].
  - vm_compute. discriminate.
Defined.

(** C1, the claim as stated fails: a single segment (0.008, 1.0) whose clip
    fills its window, in an original of 1.008 s, has a leading and a
    trailing gap of 8 ms each; both are within the tolerance and are
    dropped, so the voice track lasts 0.992 s, 16 ms short of the declared
    duration. *)
Lemma voice_track_duration_counterexample :
  let fs := Samples.studio (1008#1000) [("work/tts/a.wav"%string, 992#1000)] in
  let segments := [Samples.dubbed 0 (8#1000) 1 "work/tts/a.wav"] in
  ffprobe Samples.ideal (fs !! original Samples.stems) = Some (1008#1000) /\
  fresh_silence "work" fs /\ ascending 0 segments /\ clips_fit fs segments /\
  exists fs' lines w,
    assemble_voice_track Samples.ideal "work" fs Samples.stems segments = (fs', lines, Some w) /\
    ~ Qabs (duration w - (1008#1000)) <= 1#100.
Proof.
  cbv zeta. split; [vm_compute; reflexivity|].
  split; [apply studio_fresh; constructor; [exists "a.wav"%string; reflexivity | constructor]|].
  split; [simpl; repeat split; vm_compute; congruence|].
  split.
  { split; constructor; try constructor.
    - intros p [= <-]. exists (mkWav (992#1000) "speech"). split; vm_compute; reflexivity.
    - simpl. eauto. }
  eexists _, _, _. split; [vm_compute; reflexivity|].
  vm_compute. intros H. apply H. reflexivity.
Qed.

(** C2, evaluated on a list that is not in start order.  The segment
    (2, 3) is listed before the segment (0, 1): the concat list keeps the
    list order (2 s of silence, first clip, second clip, and 2 s of
    trailing silence counted from the end of the segment listed last), 6 s
    for an original of 3 s, where the list in start order gives second
    clip, 1 s of silence, first clip, 3 s in all. *)
Theorem unsorted_segments_keep_list_order :
  let fs := Samples.studio 3 [("work/tts/a.wav"%string, 1); ("work/tts/b.wav"%string, 1)] in
  let late := Samples.dubbed 0 2 3 "work/tts/a.wav" in
  let early := Samples.dubbed 1 0 1 "work/tts/b.wav" in
  (let '(_, lines, track) :=
     assemble_voice_track Samples.ideal "work" fs Samples.stems [late; early] in
   lines = ["work/silence_gap_0.wav"; "work/tts/a.wav"; "work/tts/b.wav";
            "work/silence_end.wav"]%string /\
   option_map duration track = Some 6) /\
  (let '(_, lines, track) :=
     assemble_voice_track Samples.ideal "work" fs Samples.stems [early; late] in
   lines = ["work/tts/b.wav"; "work/silence_gap_1.wav"; "work/tts/a.wav"]%string /\
   option_map duration track = Some 3).
Proof. vm_compute. repeat split. Qed.

(** C10 (amended). When the loop reaches a segment that has a clip and
    starts before the cursor (an overlapping or out-of-order segment), the
    input is not rejected: the voice track is assembled; in the concat
    list the clip comes right after the lines written before it, with no
    silence in between, so it begins where the audio assembled so far ends
    (later than its declared start whenever that audio is at least as long
    as the cursor); and the loop goes on from the cursor [segment.end],
    whether or not that is before the old cursor. *)
Theorem overlapping_segment_appended (E : Engines) (work_dir : Path) (fs fs1 : gmap string Wav)
    (stem_paths : StemPaths) (l1 l2 : list Segment) (seg : Segment) (p : Path)
    (cur1 : Q) (lines1 : list Path) :
  write_segments work_dir 0 l1 fs 0 = (fs1, cur1, lines1) ->
  audio_path seg = Some p -> is_Some (fs1 !! p) ->
  start seg < cur1 ->
  exists fs2 cur2 lines2 fs' tail w,
    write_segments work_dir (S (length l1)) l2 fs1 (end_ seg) = (fs2, cur2, lines2) /\
    write_segments work_dir 0 (l1 ++ seg :: l2) fs 0 = (fs2, cur2, lines1 ++ p :: lines2) /\
    assemble_voice_track E work_dir fs stem_paths (l1 ++ seg :: l2) =
      (fs', lines1 ++ p :: lines2 ++ tail, Some w) /\
    (cur1 <= track_length fs' lines1 -> start seg < track_length fs' lines1).
Proof.
  intros H1 Hp Hex Hlt.
  destruct (write_segments work_dir (S (length l1)) l2 fs1 (end_ seg)) as [[fs2 cur2] lines2] eqn:H2.
  assert (Hall : write_segments work_dir 0 (l1 ++ seg :: l2) fs 0 =
                 (fs2, cur2, lines1 ++ p :: lines2)).
  { rewrite write_segments_app, H1. simpl plus.
    rewrite (write_segments_no_gap _ _ _ _ _ _ p) by (auto; lra). now rewrite H2. }
  destruct (write_concat_list_spec work_dir fs fs2
              (total_duration E fs stem_paths (l1 ++ seg :: l2)) cur2 _ _ Hall)
    as (fs' & tail & Hw & _ & Hex' & _).
  destruct (ffmpeg_concat_length fs' _ Hex') as (w & Hc & _).
  exists fs2, cur2, lines2, fs', tail, w.
  split; [reflexivity|]. split; [exact Hall|]. split.
  - unfold assemble_voice_track. rewrite Hw, Hc. now rewrite <- app_assoc.
  - intros Hlen. lra.
Qed.

Lemma overlapping_segment_appended_witness :
  exists fs2 cur2 lines2 fs' tail w,
    write_segments "work" 1 [] (Samples.studio 2 [("work/tts/a.wav"%string, 1); ("work/tts/b.wav"%string, 1)])
      (end_ (Samples.dubbed 1 (1#2) (3#4) "work/tts/b.wav")) = (fs2, cur2, lines2) /\
    write_segments "work" 0
      ([Samples.dubbed 0 0 1 "work/tts/a.wav"] ++ Samples.dubbed 1 (1#2) (3#4) "work/tts/b.wav" :: [])
      (Samples.studio 2 [("work/tts/a.wav"%string, 1); ("work/tts/b.wav"%string, 1)]) 0 =
      (fs2, cur2, ["work/tts/a.wav"%string] ++ "work/tts/b.wav"%string :: lines2) /\
    assemble_voice_track Samples.ideal "work"
      (Samples.studio 2 [("work/tts/a.wav"%string, 1); ("work/tts/b.wav"%string, 1)]) Samples.stems
      ([Samples.dubbed 0 0 1 "work/tts/a.wav"] ++ Samples.dubbed 1 (1#2) (3#4) "work/tts/b.wav" :: []) =
      (fs', ["work/tts/a.wav"%string] ++ "work/tts/b.wav"%string :: lines2 ++ tail, Some w) /\
    (1 <= track_length fs' ["work/tts/a.wav"%string] ->
     start (Samples.dubbed 1 (1#2) (3#4) "work/tts/b.wav") < track_length fs' ["work/tts/a.wav"%string]).
Proof.
  apply (overlapping_segment_appended Samples.ideal "work"
           (Samples.studio 2 [("work/tts/a.wav"%string, 1); ("work/tts/b.wav"%string, 1)])
           (Samples.studio 2 [("work/tts/a.wav"%string, 1); ("work/tts/b.wav"%string, 1)])
           Samples.stems [Samples.dubbed 0 0 1 "work/tts/a.wav"] []
           (Samples.dubbed 1 (1#2) (3#4) "work/tts/b.wav") "work/tts/b.wav" 1
           ["work/tts/a.wav"%string]).
  - vm_compute. reflexivity.
  - reflexivity.
  - exists (mkWav 1 "speech"). vm_compute. reflexivity.
  - vm_compute. reflexivity.
Defined.

(** The cursor does move backwards: after the segment (0, 1) the segment
    (0.5, 0.75) is appended without silence and leaves the cursor at 0.75,
    so the trailing silence is 1.25 s for an original of 2 s and the track
    lasts 3.25 s. *)
Example overlapping_segment_cursor_backwards :
  let fs := Samples.studio 2 [("work/tts/a.wav"%string, 1); ("work/tts/b.wav"%string, 1)] in
  let segments := [Samples.dubbed 0 0 1 "work/tts/a.wav"; Samples.dubbed 1 (1#2) (3#4) "work/tts/b.wav"] in
  snd (fst (write_segments "work" 0 segments fs 0)) = (3#4) /\
  (let '(_, lines, track) := assemble_voice_track Samples.ideal "work" fs Samples.stems segments in
   lines = ["work/tts/a.wav"; "work/tts/b.wav"; "work/silence_end.wav"]%string /\
   option_map (fun w => Qred (duration w)) track = Some (13#4)).
Proof. vm_compute. repeat split. Qed.

(** C10, the claim as stated fails in one part: the clip is not always
    placed later than its declared start.  The segment (0.008, 1.0) loses
    its leading gap of 8 ms to the tolerance, so its clip of 0.992 s ends
    at 0.992 s while the cursor stands at 1.0; the next segment
    (0.995, 2.0) starts before the cursor and its clip is appended at
    0.992 s, 3 ms before its declared start. *)
Lemma overlapping_segment_counterexample :
  let fs := Samples.studio 2 [("work/tts/a.wav"%string, 992#1000); ("work/tts/b.wav"%string, 1005#1000)] in
  let first := Samples.dubbed 0 (8#1000) 1 "work/tts/a.wav" in
  let second := Samples.dubbed 1 (995#1000) 2 "work/tts/b.wav" in
  write_segments "work" 0 [first] fs 0 = (fs, 1, ["work/tts/a.wav"%string]) /\
  start second < 1 /\
  exists fs' w,
    assemble_voice_track Samples.ideal "work" fs Samples.stems [first; second] =
      (fs', ["work/tts/a.wav"; "work/tts/b.wav"]%string, Some w) /\
    track_length fs' ["work/tts/a.wav"%string] == 992#1000 /\
    ~ start second < track_length fs' ["work/tts/a.wav"%string].
Proof.
  cbv zeta. split; [vm_compute; reflexivity|]. split; [vm_compute; reflexivity|].
  eexists _, _. split; [vm_compute; reflexivity|].
  split; vm_compute; [reflexivity | discriminate].
Qed.



End MixFacts.

(** ** Synthesis stage *)

Module PipelineFacts.
Import Py Models Audio Pathlib Mix Pipeline PyFacts MixFacts.







End PipelineFacts.

(** ** Subtitles *)

Module SubtitleFacts.
Import Py Models Pathlib Subtitles PyFacts.

Lemma Qfloor_unique (x : Q) (n : Z) :
  inject_Z n <= x -> x < inject_Z (n + 1) -> Qfloor x = n.
Proof.
  intros Hlo Hhi. apply Z.le_antisymm.
  - assert (H : inject_Z (Qfloor x) < inject_Z (n + 1))
      by (eapply Qle_lt_trans; [apply Qfloor_le | exact Hhi]).
    rewrite <- Zlt_Qlt in H. lia.
  - rewrite <- (Qfloor_Z n). now apply Qfloor_resp_le.
Qed.

Lemma int_nonneg (x : Q) : 0 <= x -> int x = Qfloor x.
Proof. intros H. unfold int. apply Qle_bool_iff in H. now rewrite H. Qed.

Lemma Qfloor_nonneg (x : Q) : 0 <= x -> (0 <= Qfloor x)%Z.
Proof. intros H. rewrite <- (Qfloor_Z 0). now apply Qfloor_resp_le. Qed.

Lemma Qfloor_below (x : Q) (n : Z) : x < inject_Z n -> (Qfloor x < n)%Z.
Proof.
  intros H. rewrite Zlt_Qlt. eapply Qle_lt_trans; [apply Qfloor_le | exact H].
Qed.

(** The fractional part lies in [0, 1). *)
Lemma mod1_range (x : Q) : 0 <= mod1 x /\ mod1 x < 1.
Proof.
  unfold mod1. pose proof (Qfloor_le x) as H1. pose proof (Qlt_floor x) as H2.
  rewrite inject_Z_plus in H2. change (inject_Z 1) with 1 in H2. split; lra.
Qed.

(** On exact numbers the four fields are in range and stand for the time
    cut down to whole milliseconds. *)
Lemma timestamp_fields_exact (seconds : Q) :
  0 <= seconds ->
  let '(hrs, mins, secs, millis) := timestamp_fields seconds in
  (0 <= hrs)%Z /\ (0 <= mins < 60)%Z /\ (0 <= secs < 60)%Z /\ (0 <= millis < 1000)%Z /\
  fields_millis (hrs, mins, secs, millis) = Qfloor (seconds * 1000).
Proof.
  intros Hpos. unfold timestamp_fields, fields_millis.
  destruct (mod1_range seconds) as [Hf0 Hf1].
  rewrite (int_nonneg seconds Hpos), (int_nonneg (mod1 seconds * 1000)) by lra.
  set (s := Qfloor seconds). set (m := Qfloor (mod1 seconds * 1000)).
  assert (Hs : (0 <= s)%Z) by now apply Qfloor_nonneg.
  assert (Hm0 : (0 <= m)%Z) by (apply Qfloor_nonneg; lra).
  assert (Hm1 : (m < 1000)%Z).
  { apply Qfloor_below. change (inject_Z 1000) with 1000. lra. }
  split; [apply Z.div_pos; [apply Z.div_pos|]; lia|].
  split; [apply Z.mod_pos_bound; lia|].
  split; [apply Z.mod_pos_bound; lia|].
  split; [lia|].
  symmetry. apply Qfloor_unique.
  - replace ((((s / 60 / 60 * 60 + s / 60 mod 60) * 60 + s mod 60) * 1000 + m)%Z)
      with (s * 1000 + m)%Z
      by (pose proof (Z.div_mod s 60); pose proof (Z.div_mod (s / 60) 60); lia).
    rewrite inject_Z_plus, inject_Z_mult. change (inject_Z 1000) with 1000.
    pose proof (Qfloor_le (mod1 seconds * 1000)) as H. fold m in H.
    unfold mod1 in H. fold s in H. lra.
  - replace ((((s / 60 / 60 * 60 + s / 60 mod 60) * 60 + s mod 60) * 1000 + m + 1)%Z)
      with (s * 1000 + (m + 1))%Z
      by (pose proof (Z.div_mod s 60); pose proof (Z.div_mod (s / 60) 60); lia).
    rewrite inject_Z_plus, inject_Z_mult. change (inject_Z 1000) with 1000.
    pose proof (Qlt_floor (mod1 seconds * 1000)) as H. fold m in H.
    unfold mod1 in H. fold s in H. lra.
Qed.

(** X1. For a time that is not negative, [format_timestamp] prints
    minutes and seconds below 60 and milliseconds below 1000, none of them
    negative; hours, minutes and seconds are the whole seconds of the time
    split by 60, and the time the four numbers stand for is less than 2 ms
    away from the time given.  (On exact numbers the milliseconds are
    those of the time, cut off; the margin leaves room for the rounding of
    [(seconds % 1) * 1000] in binary floating point, which can move the
    cut by one.) *)
Theorem timestamp_fields_truncate (seconds : Q) :
  0 <= seconds ->
  let '(hrs, mins, secs, millis) := timestamp_fields seconds in
  (0 <= hrs)%Z /\ (0 <= mins < 60)%Z /\ (0 <= secs < 60)%Z /\ (0 <= millis < 1000)%Z /\
  (hrs * 3600 + mins * 60 + secs = Qfloor seconds)%Z /\
  Qabs (inject_Z (fields_millis (hrs, mins, secs, millis)) - seconds * 1000) < 2.
Proof.
  intros Hpos. pose proof (timestamp_fields_exact seconds Hpos) as H.
  assert (Hw : let '(hrs, mins, secs, _) := timestamp_fields seconds in
               (hrs * 3600 + mins * 60 + secs = Qfloor seconds)%Z).
  { unfold timestamp_fields. rewrite (int_nonneg seconds Hpos).
    pose proof (Z.div_mod (Qfloor seconds) 60). pose proof (Z.div_mod (Qfloor seconds / 60) 60).
    lia. }
  destruct (timestamp_fields seconds) as [[[hrs mins] secs] millis].
  destruct H as (H0 & Hm & Hs & Hms & Hfloor).
  repeat (split; [assumption|]). rewrite Hfloor.
  pose proof (Qfloor_le (seconds * 1000)). pose proof (Qlt_floor (seconds * 1000)) as Hlt.
  rewrite inject_Z_plus in Hlt. change (inject_Z 1) with 1 in Hlt.
  apply Qabs_Qlt_condition. split; lra.
Qed.

Lemma timestamp_fields_truncate_witness :
  let '(hrs, mins, secs, millis) := timestamp_fields (3661123#1000) in
  (0 <= hrs)%Z /\ (0 <= mins < 60)%Z /\ (0 <= secs < 60)%Z /\ (0 <= millis < 1000)%Z /\
  (hrs * 3600 + mins * 60 + secs = Qfloor (3661123#1000))%Z /\
  Qabs (inject_Z (fields_millis (hrs, mins, secs, millis)) - (3661123#1000) * 1000) < 2.
Proof.
  apply (timestamp_fields_truncate (3661123#1000)). vm_compute. discriminate.
Defined.

Lemma string_length_app (a b : string) :
  String.length (a +:+ b) = (String.length a + String.length b)%nat.
Proof. induction a as [|c a IH]; simpl; [reflexivity | now rewrite IH]. Qed.

(** Zero padding fills the width for numbers that fit it. *)
Lemma format_int_width (width bound : nat) (z : Z) :
  forallb (fun n => Nat.eqb (String.length (format_int width (Z.of_nat n))) width)
          (seq 0 bound) = true ->
  (0 <= z < Z.of_nat bound)%Z ->
  String.length (format_int width z) = width.
Proof.
  intros Hall Hz. rewrite forallb_forall in Hall.
  specialize (Hall (Z.to_nat z)). rewrite Z2Nat.id in Hall by lia.
  apply Nat.eqb_eq, Hall, in_seq. lia.
Qed.

Lemma format_int_2 (z : Z) : (0 <= z < 100)%Z -> String.length (format_int 2 z) = 2%nat.
Proof. apply (format_int_width 2 100). vm_compute. reflexivity. Qed.

Lemma format_int_3 (z : Z) : (0 <= z < 1000)%Z -> String.length (format_int 3 z) = 3%nat.
Proof. apply (format_int_width 3 1000). vm_compute. reflexivity. Qed.

(** X2. For a time from 0 up to (not including) 100 hours, the timestamp
    has the fixed layout [HH:MM:SS,mmm]: two characters, a colon, two
    characters, a colon, two characters, a comma and three characters, 12
    characters in all. *)
Theorem format_timestamp_layout (seconds : Q) :
  0 <= seconds -> seconds < 360000 ->
  exists hh mm ss mmm,
    format_timestamp seconds = hh +:+ ":" +:+ mm +:+ ":" +:+ ss +:+ "," +:+ mmm /\
    String.length hh = 2%nat /\ String.length mm = 2%nat /\
    String.length ss = 2%nat /\ String.length mmm = 3%nat /\
    String.length (format_timestamp seconds) = 12%nat.
Proof.
  intros Hpos Hlt. pose proof (timestamp_fields_exact seconds Hpos) as H.
  unfold format_timestamp.
  assert (Hs : (Qfloor seconds < 360000)%Z).
  { apply Qfloor_below. change (inject_Z 360000) with 360000. exact Hlt. }
  assert (Hh : (fst (fst (fst (timestamp_fields seconds))) < 100)%Z).
  { unfold timestamp_fields. rewrite (int_nonneg seconds Hpos). simpl.
    pose proof (Qfloor_nonneg seconds Hpos).
    apply Z.div_lt_upper_bound; [lia|]. apply Z.div_lt_upper_bound; lia. }
  destruct (timestamp_fields seconds) as [[[hrs mins] secs] millis]. simpl in Hh.
  destruct H as (H0 & Hm & Hsec & Hms & _).
  exists (format_int 2 hrs), (format_int 2 mins), (format_int 2 secs), (format_int 3 millis).
  pose proof (format_int_2 hrs (conj H0 Hh)) as L1.
  assert (L2 : String.length (format_int 2 mins) = 2%nat) by (apply format_int_2; lia).
  assert (L3 : String.length (format_int 2 secs) = 2%nat) by (apply format_int_2; lia).
  pose proof (format_int_3 millis Hms) as L4.
  repeat split; try assumption.
  rewrite !string_length_app, L1, L2, L3, L4. reflexivity.
Qed.

Lemma format_timestamp_layout_witness :
  exists hh mm ss mmm,
    format_timestamp (5#2) = hh +:+ ":" +:+ mm +:+ ":" +:+ ss +:+ "," +:+ mmm /\
    String.length hh = 2%nat /\ String.length mm = 2%nat /\
    String.length ss = 2%nat /\ String.length mmm = 3%nat /\
    String.length (format_timestamp (5#2)) = 12%nat.
Proof.
  apply (format_timestamp_layout (5#2)); vm_compute; [discriminate | reflexivity].
Defined.

(** The timestamps checked by the project's own subtitle test. *)
Example format_timestamp_test :
  format_timestamp (1#2) = "00:00:00,500"%string /\
  format_timestamp (5#2) = "00:00:02,500"%string.
Proof. split; reflexivity. Qed.

Lemma write_blocks_length (segments : list Segment) : forall i,
  length (write_blocks i segments) = (3 * length segments)%nat.
Proof.
  induction segments as [|seg rest IH]; intros i; simpl; [reflexivity|].
  rewrite IH. lia.
Qed.

Lemma write_blocks_nth (segments : list Segment) : forall i k seg,
  nth_error segments k = Some seg ->
  exists tail, skipn (3 * k) (write_blocks i segments) = subtitle_block (i + k) seg ++ tail.
Proof.
  induction segments as [|s0 rest IH]; intros i k seg Hk; [destruct k; discriminate|].
  destruct k as [|k]; simpl in Hk.
  - injection Hk as ->. rewrite Nat.add_0_r. exists (write_blocks (S i) rest). reflexivity.
  - destruct (IH (S i) k seg Hk) as [tail Ht].
    exists tail. replace (3 * S k)%nat with (3 + 3 * k)%nat by lia.
    replace (i + S k)%nat with (S i + k)%nat by lia.
    simpl write_blocks. unfold subtitle_block at 1. simpl app.
    change (skipn (3 + 3 * k) (?a :: ?b :: ?c :: ?l)) with (skipn (3 * k) l).
    exact Ht.
Qed.

(** X3. [generate_subtitles] writes one block of three strings for every
    segment of the list, in list order and numbered from 1, whether or not
    the segment has a translation or a clip: the number, the two timestamps
    joined by [" --> "], and the translated text (empty when there is none)
    followed by a blank line. *)
Theorem generate_subtitles_blocks (segments : list Segment) (base srt_path : Path)
    (writes : list string) :
  generate_subtitles segments base = Ok (srt_path, writes) ->
  with_suffix base ".srt" = Some srt_path /\
  length writes = (3 * length segments)%nat /\
  forall k seg, nth_error segments k = Some seg ->
    nth_error writes (3 * k) = Some (str_nat (k + 1) +:+ newline) /\
    nth_error writes (3 * k + 1) =
      Some (format_timestamp (start seg) +:+ " --> " +:+ format_timestamp (end_ seg) +:+ newline) /\
    nth_error writes (3 * k + 2) =
      Some ((if truthy (translated_text seg) then default "" (translated_text seg) else "")
              +:+ newline +:+ newline).
Proof.
  unfold generate_subtitles. destruct (with_suffix base ".srt") as [p|]; [|discriminate].
  intros [= -> <-]. split; [reflexivity|]. split; [apply write_blocks_length|].
  intros k seg Hk. destruct (write_blocks_nth segments 0 k seg Hk) as [tail Ht].
  simpl plus in Ht.
  assert (Hn : forall j, nth_error (write_blocks 0 segments) (3 * k + j) =
                         nth_error (subtitle_block k seg ++ tail) j).
  { intros j. rewrite <- Ht. now rewrite nth_error_skipn. }
  rewrite <- (Nat.add_0_r (3 * k)) at 1. rewrite !Hn. repeat split.
Qed.

Lemma generate_subtitles_blocks_witness :
  with_suffix "out/video_dubbed_fr.mp4" ".srt" = Some "out/video_dubbed_fr.srt"%string /\
  length [("1" +:+ newline)%string; ("00:00:00,500 --> 00:00:02,500" +:+ newline)%string;
          ("Hello" +:+ newline +:+ newline)%string] =
    (3 * length [mkSegment 1 (1#2) (5#2) "" (Some "Hello"%string) None None])%nat /\
  forall k seg,
    nth_error [mkSegment 1 (1#2) (5#2) "" (Some "Hello"%string) None None] k = Some seg ->
    nth_error [("1" +:+ newline)%string; ("00:00:00,500 --> 00:00:02,500" +:+ newline)%string;
               ("Hello" +:+ newline +:+ newline)%string] (3 * k) =
      Some (str_nat (k + 1) +:+ newline) /\
    nth_error [("1" +:+ newline)%string; ("00:00:00,500 --> 00:00:02,500" +:+ newline)%string;
               ("Hello" +:+ newline +:+ newline)%string] (3 * k + 1) =
      Some (format_timestamp (start seg) +:+ " --> " +:+ format_timestamp (end_ seg) +:+ newline) /\
    nth_error [("1" +:+ newline)%string; ("00:00:00,500 --> 00:00:02,500" +:+ newline)%string;
               ("Hello" +:+ newline +:+ newline)%string] (3 * k + 2) =
      Some ((if truthy (translated_text seg) then default "" (translated_text seg) else "")
              +:+ newline +:+ newline).
Proof.
  apply (generate_subtitles_blocks [mkSegment 1 (1#2) (5#2) "" (Some "Hello"%string) None None]
           "out/video_dubbed_fr.mp4"). vm_compute. reflexivity.
Defined.

End SubtitleFacts.

(** ** Timeline assembly: further properties *)

Module AssemblyFacts.
Import Py Models Audio Pathlib Mix Spec PyFacts MixFacts.

Lemma write_segments_sublist (work_dir : Path) (fs0 : gmap string Wav) (segments : list Segment) :
  forall i fs cur fs' cur' lines,
  (forall q w, fs0 !! q = Some w -> fs !! q = Some w) ->
  write_segments work_dir i segments fs cur = (fs', cur', lines) ->
  sublist (present_clips fs0 segments) lines.
Proof.
  induction segments as [|seg rest IH]; intros i fs cur fs' cur' lines Hsub H.
  - injection H as <- <- <-. constructor.
  - simpl present_clips.
    destruct (audio_path seg) as [p|] eqn:Hp; simpl.
    2:{ rewrite write_segments_skip in H by (intros p0; congruence). eauto. }
    destruct (fs !! p) as [w|] eqn:Hw.
    2:{ rewrite write_segments_skip in H by (intros p0; congruence).
        destruct (fs0 !! p) as [w0|] eqn:Hw0; [|eauto].
        apply Hsub in Hw0. congruence. }
    assert (Hlines : exists fs1 more silence,
               (forall q w0, fs !! q = Some w0 -> fs1 !! q = Some w0) /\
               write_segments work_dir (S i) rest fs1 (end_ seg) = (fs', cur', more) /\
               lines = silence ++ p :: more).
    { destruct (Qlt_le_dec (1#100) (start seg - cur)) as [Hgap|Hgap].
      - rewrite (write_segments_gap _ _ _ _ _ _ p) in H by eauto.
        destruct (get_silence_spec work_dir fs (start seg - cur) (gap_index i))
          as (fs1 & Hgs & _ & Hmono & _).
        rewrite Hgs in H.
        destruct (write_segments work_dir (S i) rest fs1 (end_ seg)) as [[fs2 t] more] eqn:Hrec.
        injection H as <- <- <-.
        exists fs1, more, [silence_path work_dir (gap_index i)]. auto.
      - rewrite (write_segments_no_gap _ _ _ _ _ _ p) in H by eauto.
        destruct (write_segments work_dir (S i) rest fs (end_ seg)) as [[fs2 t] more] eqn:Hrec.
        injection H as <- <- <-. exists fs, more, []. auto. }
    destruct Hlines as (fs1 & more & silence & Hmono & Hrec & ->).
    assert (Hrest : sublist (present_clips fs0 rest) more) by (eapply IH; [|exact Hrec]; eauto).
    apply sublist_inserts_l.
    destruct (fs0 !! p); [now apply sublist_skip | now apply sublist_cons].
Qed.

(** X4. Whatever the timestamps and the order of the list, the clips that
    exist when the assembly starts appear in the concat list in the order
    of the segment list (the other lines lie between, before or after
    them). *)
Theorem concat_list_keeps_list_order (E : Engines) (work_dir : Path) (fs : gmap string Wav)
    (stem_paths : StemPaths) (segments : list Segment) :
  sublist (present_clips fs segments)
          (snd (fst (assemble_voice_track E work_dir fs stem_paths segments))).
Proof.
  unfold assemble_voice_track.
  destruct (write_segments work_dir 0 segments fs 0) as [[fs1 cur] lines0] eqn:H.
  destruct (write_concat_list_spec work_dir fs fs1
              (total_duration E fs stem_paths segments) cur segments lines0 H)
    as (fs' & tail & -> & _). simpl.
  apply sublist_inserts_r. eapply write_segments_sublist; [|exact H]. auto.
Qed.

Lemma write_concat_list_files (work_dir : Path) (fs fs' : gmap string Wav) (total : Q)
    (segments : list Segment) (lines : list Path) :
  write_concat_list work_dir fs total segments = (fs', lines) ->
  (forall q w, fs !! q = Some w -> fs' !! q = Some w) /\
  (forall q, (forall index, q <> silence_path work_dir index) -> fs' !! q = fs !! q).
Proof.
  unfold write_concat_list.
  destruct (write_segments work_dir 0 segments fs 0) as [[fs1 cur] lines0] eqn:H.
  destruct (write_segments_files _ _ _ _ _ _ _ _ H) as (Hmono & Hother & _).
  destruct (Qltb (1#100) (total - cur)).
  - destruct (get_silence_spec work_dir fs1 (total - cur) "end") as (fs2 & Hgs & _ & Hm2 & Ho2).
    rewrite Hgs. intros [= <- <-]. split; [auto|].
    intros q Hq. rewrite Ho2 by apply Hq. apply Hother. intros j _. apply Hq.
  - intros [= <- <-]. split; [auto|]. intros q Hq. apply Hother. intros j _. apply Hq.
Qed.

(** X5. [create_mixed_audio] never overwrites or removes a file that
    exists, the concat list, the voice track and the output file apart;
    the only other files it creates are silence files of the work
    directory. *)
Theorem create_mixed_audio_preserves_files (E : Engines) (work_dir : Path)
    (fs : gmap string Wav) (stem_paths : StemPaths) (segments : list Segment)
    (output_path : Path) :
  let fs' := fst (fst (create_mixed_audio E work_dir fs stem_paths segments output_path)) in
  let kept q :=
    q <> joinpath work_dir "concat_list.txt" /\ q <> voice_track_path work_dir /\
    q <> output_path in
  (forall q w, kept q -> fs !! q = Some w -> fs' !! q = Some w) /\
  (forall q, kept q -> (forall index, q <> silence_path work_dir index) -> fs' !! q = fs !! q).
Proof.
  unfold create_mixed_audio, assemble_voice_track.
  destruct (write_concat_list work_dir fs (total_duration E fs stem_paths segments) segments)
    as [fs1 lines] eqn:H.
  destruct (write_concat_list_files _ _ _ _ _ _ H) as (Hmono & Hother).
  assert (Hout : forall out (m : gmap string Wav) q, q <> output_path ->
                 write_output output_path out m !! q = m !! q).
  { intros [w|] m q Hq; simpl; [now rewrite lookup_insert_ne|reflexivity]. }
  destruct (ffmpeg_concat fs1 lines) as [w|]; [|simpl; split; intros q; intros; auto].
  destruct (ffmpeg_sidechain E _ _) as [out|out]; simpl; split.
  all: intros q; intros; match goal with Hk : _ /\ _ /\ _ |- _ => destruct Hk as (_ & Hv & Ho) end.
  all: rewrite Hout by assumption; rewrite lookup_insert_ne by congruence; auto.
Qed.

(** With a clip for every segment, the loop ends with the cursor at the
    end of the last segment. *)
Lemma write_segments_cursor (work_dir : Path) (segments : list Segment) :
  forall i fs cur fs' cur' lines,
  handles_fit fs segments -> Forall (fun seg => is_Some (audio_path seg)) segments ->
  write_segments work_dir i segments fs cur = (fs', cur', lines) ->
  cur' = match last segments with Some seg => end_ seg | None => cur end.
Proof.
  induction segments as [|seg rest IH]; intros i fs cur fs' cur' lines Hfit Hall H.
  - now injection H as _ <- _.
  - inversion Hfit as [|? ? Hseg Hrest]; subst. inversion Hall as [|? ? [p Hp] Hall']; subst.
    destruct (Hseg p Hp) as (w & Hw & _).
    assert (Hrec : exists fs1 more,
               (forall q w0, fs !! q = Some w0 -> fs1 !! q = Some w0) /\
               write_segments work_dir (S i) rest fs1 (end_ seg) = (fs', cur', more)).
    { destruct (Qlt_le_dec (1#100) (start seg - cur)) as [Hgap|Hgap].
      - rewrite (write_segments_gap _ _ _ _ _ _ p) in H by eauto.
        destruct (get_silence_spec work_dir fs (start seg - cur) (gap_index i))
          as (fs1 & Hgs & _ & Hmono & _).
        rewrite Hgs in H.
        destruct (write_segments work_dir (S i) rest fs1 (end_ seg)) as [[fs2 t] more] eqn:Hrec.
        injection H as <- <- <-. eauto.
      - rewrite (write_segments_no_gap _ _ _ _ _ _ p) in H by eauto.
        destruct (write_segments work_dir (S i) rest fs (end_ seg)) as [[fs2 t] more] eqn:Hrec.
        injection H as <- <- <-. eauto. }
    destruct Hrec as (fs1 & more & Hmono & Hrec).
    rewrite (IH _ _ _ _ _ _ (handles_fit_mono _ _ _ Hmono Hrest) Hall' Hrec).
    rewrite last_cons. now destruct (last rest).
Qed.

(** X6. When every segment has a clip that fills its window, no silence
    file is left from an earlier call, every segment starts exactly at, or
    more than 10 ms after, time 0 and the end of every earlier segment, and
    the declared original duration is either exactly the end of the last
    segment or more than 10 ms later, the voice track lasts exactly the
    declared original duration. *)
Theorem voice_track_exact (E : Engines) (work_dir : Path) (fs : gmap string Wav)
    (stem_paths : StemPaths) (segments : list Segment) (total : Q) :
  ffprobe E (fs !! original stem_paths) = Some total ->
  fresh_silence work_dir fs ->
  clips_fit fs segments ->
  well_spaced 0 segments ->
  (let last_end := match last segments with Some seg => end_ seg | None => 0 end in
   last_end == total \/ 1#100 < total - last_end) ->
  exists fs' lines w,
    assemble_voice_track E work_dir fs stem_paths segments = (fs', lines, Some w) /\
    duration w == total.
Proof.
  intros Hprobe Hfresh [Hfit Hall] Hsp Hlast.
  unfold assemble_voice_track, total_duration. rewrite Hprobe.
  destruct (write_segments work_dir 0 segments fs 0) as [[fs1 cur] lines0] eqn:H.
  destruct (write_segments_exact _ _ _ _ _ _ _ _ (fun j _ => Hfresh (gap_index j)) Hfit Hsp H)
    as (Hlen & _).
  pose proof (write_segments_cursor _ _ _ _ _ _ _ _ Hfit Hall H) as Hcur.
  cbv zeta in Hlast. rewrite <- Hcur in Hlast.
  destruct (write_segments_files _ _ _ _ _ _ _ _ H) as (_ & Hother & Hex).
  destruct (write_concat_list_spec work_dir fs fs1 total cur segments lines0 H)
    as (fs' & tail & -> & Hmono & Hex' & Htail).
  destruct (ffmpeg_concat_length fs' _ Hex') as (w & -> & Hd).
  exists fs', (lines0 ++ tail), w. split; [reflexivity|].
  rewrite Hd, track_length_app, (track_length_mono fs1 fs' lines0 Hmono Hex), Hlen.
  destruct Htail as [[Hrem ->]|(Hrem & -> & Hend')].
  - simpl. destruct Hlast; lra.
  - assert (Hnone : fs1 !! silence_path work_dir "end" = None).
    { rewrite Hother; [apply Hfresh|]. intros j _. apply gap_path_not_end. }
    simpl. rewrite (file_duration_Some _ _ _ (Hend' Hnone)). simpl. lra.
Qed.

Lemma voice_track_exact_witness :
  exists fs' lines w,
    assemble_voice_track Samples.ideal "work"
      (Samples.studio 3 [("work/tts/a.wav"%string, 1)]) Samples.stems
      [Samples.dubbed 0 0 1 "work/tts/a.wav"] = (fs', lines, Some w) /\
    duration w == 3.
Proof.
  apply (voice_track_exact Samples.ideal "work"
           (Samples.studio 3 [("work/tts/a.wav"%string, 1)]) Samples.stems
           [Samples.dubbed 0 0 1 "work/tts/a.wav"] 3).
  - vm_compute. reflexivity.
  - apply studio_fresh. constructor; [exists "a.wav"%string; reflexivity | constructor].
  - split; constructor; try constructor.
    + intros p [= <-]. exists (mkWav 1 "speech"). split; vm_compute; reflexivity.
    + simpl. eauto.
  - simpl. repeat split; try (vm_compute; reflexivity). left. reflexivity.
  - right. vm_compute. reflexivity.
Defined.

Lemma write_segments_all_skipped (work_dir : Path) (fs : gmap string Wav)
    (segments : list Segment) : forall i cur,
  Forall (fun seg => forall p, audio_path seg = Some p -> fs !! p = None) segments ->
  write_segments work_dir i segments fs cur = (fs, cur, []).
Proof.
  induction segments as [|seg rest IH]; intros i cur Hall; [reflexivity|].
  inversion Hall; subst. rewrite write_segments_skip by assumption. now apply IH.
Qed.

(** X7. When no segment has a usable clip (every handle is absent or
    names a missing file), the concat list is the trailing silence alone,
    of the length of the total duration (the probed one, or the end of the
    last segment when the probe fails), provided that exceeds 10 ms; a
    silence file already at that path is used as it is, whatever its
    length.  When the total duration is 10 ms or less nothing is written:
    the concat list is empty and no silence file is made. *)
Theorem voice_track_without_clips (E : Engines) (work_dir : Path) (fs : gmap string Wav)
    (stem_paths : StemPaths) (segments : list Segment) :
  Forall (fun seg => forall p, audio_path seg = Some p -> fs !! p = None) segments ->
  let total := total_duration E fs stem_paths segments in
  let silence := silence_path work_dir "end" in
  (1#100 < total ->
   exists fs' w,
     assemble_voice_track E work_dir fs stem_paths segments = (fs', [silence], Some w) /\
     fs' !! silence = Some (match fs !! silence with Some old => old | None => silence_wav total end) /\
     duration w == match fs !! silence with Some old => duration old | None => total end) /\
  (total <= 1#100 ->
   fst (assemble_voice_track E work_dir fs stem_paths segments) = (fs, [])).
Proof.
  intros Hall total silence. unfold assemble_voice_track. fold total.
  unfold write_concat_list. rewrite (write_segments_all_skipped _ _ _ _ _ Hall).
  replace (total - 0) with total by (unfold Qminus, Qplus, Qopp; destruct total; simpl; f_equal; lia).
  split.
  - intros Hgt. apply Qltb_true in Hgt. rewrite Hgt.
    unfold get_silence. fold (silence_path work_dir "end"). fold silence.
    destruct (fs !! silence) as [old|] eqn:Hold.
    + exists fs, (mkWav (duration old + 0) (data old +:+ "")).
      simpl. rewrite Hold. repeat split; simpl; lra.
    + exists (<[silence := silence_wav total]> fs), (mkWav (total + 0) ("" +:+ "")).
      simpl. rewrite lookup_insert_eq. repeat split; simpl; lra.
  - intros Hle. apply Qltb_false in Hle. now rewrite Hle.
Qed.

Lemma voice_track_without_clips_witness :
  let fs := Samples.studio 3 [] in
  let segments := [Samples.translated 0 0 1 "A"] in
  let total := total_duration Samples.ideal fs Samples.stems segments in
  let silence := silence_path "work" "end" in
  (1#100 < total ->
   exists fs' w,
     assemble_voice_track Samples.ideal "work" fs Samples.stems segments = (fs', [silence], Some w) /\
     fs' !! silence = Some (match fs !! silence with Some old => old | None => silence_wav total end) /\
     duration w == match fs !! silence with Some old => duration old | None => total end) /\
  (total <= 1#100 ->
   fst (assemble_voice_track Samples.ideal "work" fs Samples.stems segments) = (fs, [])).
Proof.
  apply (voice_track_without_clips Samples.ideal "work" (Samples.studio 3 []) Samples.stems
           [Samples.translated 0 0 1 "A"]).
  constructor; [intros p [=] | constructor].
Defined.

End AssemblyFacts.

(** ** Synthesis and duration matching: further properties *)

Module SynthesisFacts.
Import Py Models Audio Pathlib XTTS Pipeline Spec PyFacts PathlibFacts XTTSFacts.

(** X8. [synthesize] changes no file other than its output file; when it
    returns for a segment with translated text, the output file exists;
    for a segment without translated text it returns without writing
    anything (once the model is loaded). *)
Theorem synthesize_output (E : Engines) (profiles : gmap string string) (default_wav : Path)
    (fs : gmap string Wav) (seg : Segment) (lang : string) (output_path : Path) :
  let '(fs', r) := synthesize E profiles default_wav fs seg lang output_path in
  (forall q, q <> output_path -> fs' !! q = fs !! q) /\
  (r = Ok tt -> truthy (translated_text seg) = true -> is_Some (fs' !! output_path)) /\
  (truthy (translated_text seg) = false -> load_model E = None -> fs' = fs /\ r = Ok tt).
Proof.
  unfold synthesize.
  destruct (load_model E) as [e|].
  { split; [intros; reflexivity|]. split; [discriminate|]. intros _ H. discriminate H. }
  destruct (truthy (translated_text seg)) eqn:Ht; simpl.
  2:{ split; [intros; reflexivity|]. split; [intros _ H; discriminate H|]. now intros _ _. }
  set (speaker_wav := match speaker_id seg ≫= _ with Some p => p | None => default_wav end).
  destruct (fs !! speaker_wav) as [ref|].
  2:{ split; [intros; reflexivity|]. split; intros H; discriminate H. }
  destruct (get_xtts_code lang) as [code|e].
  2:{ split; [intros; reflexivity|]. split; intros H; discriminate H. }
  destruct (tts_to_file E _ ref code) as [out|e].
  2:{ split; [intros; reflexivity|]. split; intros H; discriminate H. }
  assert (Hother : forall q, q <> output_path -> write_output output_path out fs !! q = fs !! q).
  { intros q Hq. destruct out; simpl; [now rewrite lookup_insert_ne | reflexivity]. }
  destruct (write_output output_path out fs !! output_path) as [w|] eqn:Ho.
  - split; [exact Hother|]. split; [intros _ _; rewrite Ho; eauto | intros H; discriminate H].
  - split; [exact Hother|]. split; intros H; discriminate H.
Qed.

(** A call that raises before the TTS model is asked leaves the file
    system alone. *)
Lemma synthesize_unsupported (E : Engines) (profiles : gmap string string) (default_wav : Path)
    (fs : gmap string Wav) (seg : Segment) (lang : string) (output_path : Path) (e : exn) :
  get_xtts_code lang = Raise e ->
  truthy (translated_text seg) = true ->
  exists e', synthesize E profiles default_wav fs seg lang output_path = (fs, Raise e').
Proof.
  intros Hl Ht. unfold synthesize. rewrite Ht, Hl. simpl.
  destruct (load_model E); [eauto|].
  destruct (speaker_id seg ≫= _); destruct (fs !! _); eauto.
Qed.

(** X9. With a target language that [get_xtts_code] rejects, the whole
    synthesis loop sets no audio handle and writes no file, whatever the
    engines would do: every segment with text raises inside [synthesize]
    before the TTS model is asked, and the exception is swallowed. *)
Theorem unsupported_language_synthesizes_nothing (E : Engines) (profiles : gmap string string)
    (default_wav tts_dir : Path) (lang : string) (e : exn) (fs : gmap string Wav)
    (segments : list Segment) :
  get_xtts_code lang = Raise e ->
  synthesize_all E profiles default_wav tts_dir lang fs segments = (fs, segments).
Proof.
  intros Hl. induction segments as [|seg rest IH]; simpl; [reflexivity|].
  assert (Hp : process_segment E profiles default_wav tts_dir lang fs seg = (fs, seg)).
  { unfold process_segment. destruct (truthy (translated_text seg)) eqn:Ht; [|reflexivity].
    simpl. unfold attempt.
    destruct (synthesize_unsupported E profiles default_wav fs seg lang
                (segment_output_path tts_dir seg) e Hl Ht) as [e' ->]. reflexivity. }
  now rewrite Hp, IH.
Qed.

Lemma unsupported_language_synthesizes_nothing_witness :
  synthesize_all Samples.ideal ∅ "work/default_speaker.wav" "work/tts" "xx"
    (Samples.studio 3 []) Samples.three_lines = (Samples.studio 3 [], Samples.three_lines).
Proof.
  apply (unsupported_language_synthesizes_nothing Samples.ideal ∅ "work/default_speaker.wav"
           "work/tts" "xx" (ValueError "Language not supported by XTTS v2.")).
  reflexivity.
Defined.

(** X10. With engines that do what they document, a clip longer than
    0.1 s whose ratio to a positive target lies within [0.5, 2.0] and
    below 0.9 or above 1.1 is stretched in one filter run to the target
    duration, and a second call on the result changes nothing.  (Durations
    are exact numbers here; the ratios 0.9 and 1.1 themselves, where the
    rounding of the quotient decides, are left out.) *)
Theorem adjust_duration_hits_target (E : Engines) (fs : gmap string Wav)
    (audio_path temp_path : Path) (w : Wav) (target : Q) :
  faithful E ->
  fs !! audio_path = Some w ->
  with_suffix audio_path ".temp.wav" = Some temp_path ->
  1#10 < duration w -> 0 < target ->
  1#2 <= duration w / target -> duration w / target <= 2 ->
  duration w / target < 9#10 \/ 11#10 < duration w / target ->
  exists fs' w',
    adjust_duration E fs audio_path target =
      (fs', [Atempo audio_path (clamp_speed (duration w / target)) temp_path], Ok tt) /\
    fs' !! audio_path = Some w' /\ duration w' == target /\
    adjust_duration E fs' audio_path target = (fs', [], Ok tt).
Proof.
  intros [Hprobe Htempo] Hw Htemp Hlong Htarget Hlo Hhi Hfar.
  set (ratio := duration w / target) in *.
  destruct (Htempo (clamp_speed ratio) w) as (w' & Hrun & Hd).
  assert (Hclamp : clamp_speed ratio == ratio).
  { destruct (clamp_speed_cases ratio) as [[H1 H2]|[(H1 & H1' & H2)|[H1 H2]]]; rewrite H2; lra. }
  assert (Hd' : duration w' == target).
  { rewrite Hd, Hclamp. unfold ratio. field. split; lra. }
  exists (<[audio_path := w']> (delete temp_path (<[temp_path := w']> fs))), w'.
  split; [|split; [apply lookup_insert_eq | split; [exact Hd'|]]].
  - unfold adjust_duration. rewrite Hw, Hprobe. fold ratio.
    destruct (Qle_bool (duration w) (1#10)) eqn:E1; [apply Qle_bool_iff in E1; lra|].
    destruct (Qeq_bool target 0) eqn:E2; [apply Qeq_bool_iff in E2; lra|].
    destruct (Qltb (9#10) (clamp_speed ratio) && Qltb (clamp_speed ratio) (11#10)) eqn:E3.
    { apply andb_true_iff in E3 as [H1 H2]. apply Qltb_true in H1, H2.
      destruct (proj1 (clamp_speed_near ratio) (conj H1 H2)). lra. }
    rewrite Htemp, Hrun. simpl. now rewrite lookup_insert_eq.
  - unfold adjust_duration. rewrite lookup_insert_eq, Hprobe.
    destruct (Qle_bool (duration w') (1#10)) eqn:E1; [reflexivity|].
    destruct (Qeq_bool target 0) eqn:E2; [apply Qeq_bool_iff in E2; lra|].
    assert (Hnear : 9#10 < clamp_speed (duration w' / target) /\
                    clamp_speed (duration w' / target) < 11#10).
    { apply clamp_speed_near. split.
      - apply Qlt_div_iff; [exact Htarget | lra].
      - apply Qdiv_lt_iff; [exact Htarget | lra]. }
    destruct Hnear as [H1 H2]. apply Qltb_true in H1, H2. now rewrite H1, H2.
Qed.

Lemma adjust_duration_hits_target_witness :
  exists fs' w',
    adjust_duration Samples.ideal (Samples.one_clip 3) "work/tts/seg_0000_A.wav" 2 =
      (fs', [Atempo "work/tts/seg_0000_A.wav" (clamp_speed (duration (mkWav 3 "speech") / 2))
               "work/tts/seg_0000_A.temp.wav"], Ok tt) /\
    fs' !! "work/tts/seg_0000_A.wav"%string = Some w' /\ duration w' == 2 /\
    adjust_duration Samples.ideal fs' "work/tts/seg_0000_A.wav" 2 = (fs', [], Ok tt).
Proof.
  apply (adjust_duration_hits_target Samples.ideal (Samples.one_clip 3)
           "work/tts/seg_0000_A.wav" "work/tts/seg_0000_A.temp.wav" (mkWav 3 "speech") 2).
  - split; [reflexivity|]. intros speed w. eexists. split; [reflexivity|]. reflexivity.
  - vm_compute. reflexivity.
  - reflexivity.
  - vm_compute. reflexivity.
  - vm_compute. reflexivity.
  - vm_compute. discriminate.
  - vm_compute. discriminate.
  - right. vm_compute. reflexivity.
Defined.

(** A call of [adjust_duration] that returns leaves a clip where there
    was one. *)
Lemma adjust_duration_keeps_clip (E : Engines) (fs fs' : gmap string Wav) (audio_path : Path)
    (target : Q) (cmds : list Cmd) :
  adjust_duration E fs audio_path target = (fs', cmds, Ok tt) ->
  is_Some (fs !! audio_path) -> is_Some (fs' !! audio_path).
Proof.
  unfold adjust_duration. intros H Hex.
  destruct (Qle_bool _ _); [now injection H as <- _|].
  destruct (Qeq_bool _ _); [discriminate|].
  destruct (_ && _); [now injection H as <- _|].
  destruct (with_suffix _ _) as [temp|]; [|discriminate].
  destruct (ffmpeg_atempo E _ _) as [out|out]; [|discriminate].
  destruct (write_output temp out fs !! temp) as [w|]; [|discriminate].
  injection H as <- _. rewrite lookup_insert_eq. eauto.
Qed.

(** X11. The synthesis loop changes nothing of a segment but its audio
    handle, keeps the list in order and length, and sets a handle only for
    a segment with translated text, to that segment's own output path
    [seg_<id>_<speaker>.wav] in the TTS directory; at the moment the loop
    body sets the handle, the file exists. *)
Theorem synthesis_loop_sets_handles (E : Engines) (profiles : gmap string string)
    (default_wav tts_dir : Path) (lang : string) :
  (forall fs seg,
     let '(fs1, seg') := process_segment E profiles default_wav tts_dir lang fs seg in
     seg' = seg \/
     (truthy (translated_text seg) = true /\
      seg' = set_audio_path seg (Some (segment_output_path tts_dir seg)) /\
      is_Some (fs1 !! segment_output_path tts_dir seg))) /\
  (forall fs segments,
     Forall2 (fun seg seg' =>
                seg' = seg \/
                (truthy (translated_text seg) = true /\
                 seg' = set_audio_path seg (Some (segment_output_path tts_dir seg))))
             segments (snd (synthesize_all E profiles default_wav tts_dir lang fs segments))).
Proof.
  assert (Hstep : forall fs seg,
     let '(fs1, seg') := process_segment E profiles default_wav tts_dir lang fs seg in
     seg' = seg \/
     (truthy (translated_text seg) = true /\
      seg' = set_audio_path seg (Some (segment_output_path tts_dir seg)) /\
      is_Some (fs1 !! segment_output_path tts_dir seg))).
  { intros fs seg. unfold process_segment.
    destruct (truthy (translated_text seg)) eqn:Ht; simpl; [|now left].
    unfold attempt.
    pose proof (synthesize_output E profiles default_wav fs seg lang
                  (segment_output_path tts_dir seg)) as Hs.
    destruct (synthesize E profiles default_wav fs seg lang (segment_output_path tts_dir seg))
      as [fs1 [[]|e]]; [|now left].
    destruct Hs as (_ & Hex & _). specialize (Hex eq_refl Ht).
    destruct (adjust_duration E fs1 (segment_output_path tts_dir seg) (end_ seg - start seg))
      as [[fs2 cmds] [[]|e]] eqn:Ha; [|now left].
    right. repeat split. eapply adjust_duration_keeps_clip; eauto. }
  split; [exact Hstep|].
  intros fs segments. revert fs. induction segments as [|seg rest IH]; intros fs; simpl.
  - constructor.
  - specialize (Hstep fs seg).
    destruct (process_segment E profiles default_wav tts_dir lang fs seg) as [fs1 seg'].
    specialize (IH fs1).
    destruct (synthesize_all E profiles default_wav tts_dir lang fs1 rest) as [fs2 rest'].
    simpl in *. constructor; [|exact IH].
    destruct Hstep as [->|(Ht & -> & _)]; [now left | now right].
Qed.

End SynthesisFacts.

(** ** Names of the clip files *)

Module NamingFacts.
Import Py Models Pathlib Pipeline Spec PathlibFacts.

Lemma uint_of_string_zeros (k : nat) (s : string) :
  NilEmpty.uint_of_string (zeros k +:+ s) =
  option_map (Nat.iter k Decimal.D0) (NilEmpty.uint_of_string s).
Proof.
  induction k as [|k IH].
  - change (zeros 0 +:+ s) with s. now destruct (NilEmpty.uint_of_string s).
  - change (zeros (S k) +:+ s) with (String "0" (zeros k +:+ s)).
    simpl. rewrite IH. now destruct (NilEmpty.uint_of_string s).
Qed.

Lemma of_uint_zeros (k : nat) (d : Decimal.uint) :
  Nat.of_uint (Nat.iter k Decimal.D0 d) = Nat.of_uint d.
Proof. induction k as [|k IH]; simpl; [reflexivity | exact IH]. Qed.

Lemma uint_of_padded (k n : nat) :
  option_map Nat.of_uint (NilEmpty.uint_of_string (zeros k +:+ str_nat n)) = Some n.
Proof.
  rewrite uint_of_string_zeros. unfold str_nat. rewrite NilEmpty.usu. simpl.
  now rewrite of_uint_zeros, DecimalNat.Unsigned.of_to.
Qed.

(** A string of digits is read as a non-negative number. *)
Lemma parse_int_digits (s : string) (d : Decimal.uint) :
  NilEmpty.uint_of_string s = Some d -> parse_int s = Some (Z.of_nat (Nat.of_uint d)).
Proof.
  intros H. destruct s as [|c s]; [unfold parse_int; now rewrite H|].
  destruct c as [[] [] [] [] [] [] [] []];
    try (unfold parse_int; now rewrite H).
  simpl in H. destruct (NilEmpty.uint_of_string s); discriminate.
Qed.

Lemma format_04d_parse (z : Z) : parse_int (format_04d z) = Some z.
Proof.
  unfold format_04d. set (n := Z.abs_nat z). set (digits := str_nat n).
  destruct (z <? 0)%Z eqn:Hz.
  - apply Z.ltb_lt in Hz.
    change ("-" +:+ zeros (3 - String.length digits) +:+ digits)
      with (String "-" (zeros (3 - String.length digits) +:+ digits)).
    unfold parse_int.
    pose proof (uint_of_padded (3 - String.length digits) n) as H. fold digits in H.
    destruct (NilEmpty.uint_of_string (zeros (3 - String.length digits) +:+ digits)) as [d|];
      [|discriminate].
    injection H as H. simpl. rewrite H. f_equal. unfold n. lia.
  - apply Z.ltb_ge in Hz.
    pose proof (uint_of_padded (4 - String.length digits) n) as H. fold digits in H.
    destruct (NilEmpty.uint_of_string (zeros (4 - String.length digits) +:+ digits)) as [d|] eqn:Hd;
      [|discriminate].
    injection H as H. rewrite (parse_int_digits _ _ Hd), H. f_equal. unfold n. lia.
Qed.

Lemma digits_no_underscore (s : string) : forall d,
  NilEmpty.uint_of_string s = Some d -> ~ In "_"%char (list_ascii_of_string s).
Proof.
  induction s as [|c s IH]; intros d H; simpl; [tauto|].
  simpl in H. destruct (NilEmpty.uint_of_string s) as [d'|]; [|discriminate].
  intros [->|Hin]; [discriminate | exact (IH d' eq_refl Hin)].
Qed.

Lemma format_04d_no_underscore (z : Z) : ~ In "_"%char (list_ascii_of_string (format_04d z)).
Proof.
  unfold format_04d. set (n := Z.abs_nat z). set (digits := str_nat n).
  destruct (z <? 0)%Z.
  - pose proof (uint_of_padded (3 - String.length digits) n) as H. fold digits in H.
    destruct (NilEmpty.uint_of_string (zeros (3 - String.length digits) +:+ digits)) as [d|] eqn:Hd;
      [|discriminate].
    change ("-" +:+ zeros (3 - String.length digits) +:+ digits)
      with (String "-" (zeros (3 - String.length digits) +:+ digits)).
    simpl. intros [Heq|Hin]; [discriminate | exact (digits_no_underscore _ _ Hd Hin)].
  - pose proof (uint_of_padded (4 - String.length digits) n) as H. fold digits in H.
    destruct (NilEmpty.uint_of_string (zeros (4 - String.length digits) +:+ digits)) as [d|] eqn:Hd;
      [|discriminate].
    exact (digits_no_underscore _ _ Hd).
Qed.

(** Two lists that agree up to the first occurrence of a character agree
    before it. *)
Lemma split_at_first (c : ascii) (a : list ascii) : forall b x y,
  ~ In c a -> ~ In c b -> a ++ c :: x = b ++ c :: y -> a = b.
Proof.
  induction a as [|a0 a IH]; intros [|b0 b] x y Ha Hb H; simpl in *.
  - reflexivity.
  - injection H as -> _. tauto.
  - injection H as -> _. tauto.
  - injection H as -> H. f_equal. eapply IH; eauto.
Qed.

(** X12. The id printed into a clip's file name can be read back
    ([int(f"{id:04d}") == id] for every integer), and so two segments of
    different ids never get the same output path in a TTS directory,
    whatever their speaker labels. *)
Theorem output_path_identifies_segment :
  (forall z, parse_int (format_04d z) = Some z) /\
  (forall tts_dir a b,
     segment_output_path tts_dir a = segment_output_path tts_dir b -> id a = id b).
Proof.
  split; [exact format_04d_parse|].
  intros tts_dir a b H. unfold segment_output_path, joinpath in H.
  apply String.app_inj in H. simpl in H. injection H as H.
  change (format_04d (id a) +:+ "_" +:+ default "None" (speaker_id a) +:+ ".wav" =
          format_04d (id b) +:+ "_" +:+ default "None" (speaker_id b) +:+ ".wav") in H.
  apply (f_equal list_ascii_of_string) in H.
  rewrite !list_ascii_of_string_app in H. simpl in H.
  apply split_at_first in H; try apply format_04d_no_underscore.
  assert (Hf : format_04d (id a) = format_04d (id b)).
  { rewrite <- (string_of_list_ascii_of_string (format_04d (id a))),
            <- (string_of_list_ascii_of_string (format_04d (id b))). now rewrite H. }
  pose proof (format_04d_parse (id a)) as Ha. rewrite Hf, format_04d_parse in Ha. congruence.
Qed.

End NamingFacts.

(** ** Language tables *)

Module LanguageFacts.
Import Py XTTS Languages.

Lemma assoc_keys (l : list (string * string)) (k : string) :
  is_Some (assoc l k) <-> In k (map fst l).
Proof.
  induction l as [|[k0 v] l IH]; simpl.
  - split; [intros [x H]; discriminate | tauto].
  - destruct (String.eqb_spec k0 k) as [->|Hne].
    + split; [now left | eauto].
    + rewrite IH. split; [now right | intros [?|?]; [congruence | assumption]].
Qed.

Lemma assoc_In (l : list (string * string)) (k v : string) :
  assoc l k = Some v -> In (k, v) l.
Proof.
  induction l as [|[k0 v0] l IH]; simpl; [discriminate|].
  destruct (String.eqb_spec k0 k) as [->|Hne]; [intros [= ->]; now left | auto].
Qed.

(** X13. The three language tables have the same keys: a language that
    [get_xtts_code] accepts has its own NLLB code and display name, and the
    other way round.  The XTTS code is the ISO code itself except for
    [zh], which becomes [zh-cn].  For any other code [get_xtts_code]
    raises, while [get_nllb_code] never raises and guesses
    [<code>_Latn]. *)
Theorem language_tables_agree (iso_code : string) :
  (is_Some (assoc ISO_TO_XTTS iso_code) <-> is_Some (assoc ISO_TO_NLLB iso_code)) /\
  (is_Some (assoc ISO_TO_XTTS iso_code) <-> is_Some (assoc ISO_TO_NAME iso_code)) /\
  (forall c, get_xtts_code iso_code = Ok c ->
             is_Some (assoc ISO_TO_XTTS iso_code) /\
             (c = iso_code \/ (iso_code = "zh" /\ c = "zh-cn"))%string) /\
  (assoc ISO_TO_XTTS iso_code = None ->
   (exists e, get_xtts_code iso_code = Raise e) /\
   get_nllb_code iso_code = iso_code +:+ "_Latn").
Proof.
  split; [rewrite !assoc_keys; reflexivity|].
  split; [rewrite !assoc_keys; reflexivity|].
  split.
  - intros c H. split.
    + unfold get_xtts_code in H. destruct (assoc ISO_TO_XTTS iso_code); [eauto | discriminate].
    + unfold get_xtts_code in H.
      destruct (assoc ISO_TO_XTTS iso_code) as [c'|] eqn:Ha; [|discriminate].
      injection H as ->. apply assoc_In in Ha. unfold ISO_TO_XTTS in Ha. simpl in Ha.
      repeat (destruct Ha as [[= <- <-]|Ha]; [auto|]). destruct Ha.
  - intros H. split.
    + unfold get_xtts_code. rewrite H. eauto.
    + unfold get_nllb_code.
      destruct (assoc ISO_TO_NLLB iso_code) as [c|] eqn:Hn; [|reflexivity].
      assert (Hs : is_Some (assoc ISO_TO_XTTS iso_code))
        by (rewrite assoc_keys; change (map fst ISO_TO_XTTS) with (map fst ISO_TO_NLLB);
            rewrite <- assoc_keys, Hn; eauto).
      rewrite H in Hs. destruct Hs; discriminate.
Qed.

End LanguageFacts.

(** ** Transcription *)

Module WhisperFacts.
Import Py Models Transcription Whisper Spec PyFacts TranscriptionFacts.

Lemma from_raw_cons (strip : string -> string) (r0 : RawSegment) (rest : list RawSegment)
    (i : Z) (s : Segment) :
  from_raw strip rest (i + 1) s -> from_raw strip (r0 :: rest) i s.
Proof.
  intros (Hid & H1 & H2 & H3 & H4 & H5 & r & Hr & Hrest).
  split; [simpl length; lia|]. repeat (split; [assumption|]).
  exists r. split; [|exact Hrest].
  replace (Z.to_nat (id s - i)) with (S (Z.to_nat (id s - (i + 1)))) by lia. exact Hr.
Qed.

Lemma collect_spec (strip : string -> string) (raw : list RawSegment) : forall i,
  exists segments,
    collect strip i raw = Ok segments /\
    Forall (from_raw strip raw i) segments /\
    StronglySorted Z.lt (map id segments) /\
    (length segments <= length raw)%nat.
Proof.
  induction raw as [|r0 rest IH]; intros i.
  - exists []. repeat split; constructor.
  - destruct (IH (i + 1)%Z) as (segs & Hc & Hall & Hsorted & Hlen).
    assert (Hall' : Forall (from_raw strip (r0 :: rest) i) segs).
    { eapply Forall_impl; [exact Hall|]. intros s. apply from_raw_cons. }
    cbn [collect].
    destruct (Qle_bool (raw_end r0 - raw_start r0) 0) eqn:E1.
    { exists segs. split; [exact Hc|]. split; [exact Hall'|]. split; [exact Hsorted|].
      simpl; lia. }
    destruct (truthy (Some (strip (raw_text r0)))) eqn:E2; cbn [negb].
    2:{ exists segs. split; [exact Hc|]. split; [exact Hall'|]. split; [exact Hsorted|].
      simpl; lia. }
    assert (Hlt : raw_start r0 < raw_end r0).
    { apply Qnot_le_lt. intros Hle.
      assert (Hle' : raw_end r0 - raw_start r0 <= 0) by lra.
      apply Qle_bool_iff in Hle'. congruence. }
    unfold check_timestamps. simpl.
    destruct (Qle_bool (raw_end r0) (raw_start r0)) eqn:E3.
    { apply Qle_bool_iff in E3. lra. }
    rewrite Hc. eexists. split; [reflexivity|]. split; [|split].
    + constructor; [|exact Hall'].
      split; [simpl; lia|]. split; [exact Hlt|]. split.
      { simpl. intros Hs. rewrite Hs in E2. discriminate. }
      repeat (split; [reflexivity|]).
      exists r0. simpl. replace (i - i)%Z with 0%Z by lia. repeat split.
    + simpl. constructor; [exact Hsorted|].
      clear -Hall. induction Hall as [|s l (Hid & _) _ IHl]; simpl; constructor; [lia | exact IHl].
    + simpl. lia.
Qed.

(** X14. When the recogniser returns, [transcribe] returns too: building
    the segments never trips the timestamp validator, because raw segments
    that do not end after their start (and those whose text is blank) are
    dropped first.  Every segment kept has [end > start], a non-empty
    stripped text, no translation, speaker or clip yet, and as id its
    position among the raw segments; the ids are strictly increasing. *)
Theorem transcribe_valid (strip : string -> string) (raw : list RawSegment) :
  exists segments,
    transcribe strip (Ok raw) = Ok segments /\
    Forall (from_raw strip raw 0) segments /\
    StronglySorted Z.lt (map id segments) /\
    (length segments <= length raw)%nat.
Proof. apply collect_spec. Qed.

(** X15. When transcription succeeds, [run] returns normally whether the
    diarization succeeds or raises; the list it returns has the segments
    of the transcription in the same order, each with a speaker id set and
    nothing else changed. *)
Theorem run_assigns_speakers (segments : list Segment) (diarize : result Annotation) :
  exists out,
    run (Ok segments) diarize = Ok out /\
    Forall2 (fun seg o => exists spk, o = set_speaker_id seg (Some spk)) segments out.
Proof.
  assert (Hmap : forall f : Segment -> Segment,
             (forall seg, exists spk, f seg = set_speaker_id seg (Some spk)) ->
             Forall2 (fun seg o => exists spk, o = set_speaker_id seg (Some spk))
                     segments (map f segments)).
  { intros f Hf. induction segments as [|seg rest IH]; simpl; constructor; auto. }
  destruct segments as [|seg0 rest] eqn:Hs.
  - exists []. split; [reflexivity | constructor].
  - rewrite <- Hs in *.
    exists (map (fun seg => set_speaker_id seg (Some SPEAKER_00)) segments).
    split; [|apply Hmap; eauto].
    rewrite Hs. destruct diarize as [d|e]; [apply run_alignment_caught | reflexivity].
Qed.

End WhisperFacts.
